(** * MockRedis: a shallow embedding of [mockredis/redis.py]

    The class [MockRedis] keeps one Python [defaultdict(dict)] in the class
    attribute [redis] and implements a handful of Redis commands on it.
    The embedding follows the source command by command:

    - the objects the store holds are strings, dicts, sets and lists;
    - a command is a function from the store to an outcome (a returned
      value or a raised exception) and the store it leaves behind, since a
      Python exception does not undo the writes made before it;
    - [self.redis[key]] on a [defaultdict(dict)] inserts an empty dict
      under a missing key before returning it, whereas [key in self.redis]
      and [has_key] only look. *)

From Stdlib Require Import ZArith Lia Ascii String.
From stdpp Require Import gmap strings list fin_maps sorting.

Local Open Scope string_scope.
Local Open Scope list_scope.
Local Open Scope nat_scope.

(** ** Python objects *)

(** What a dict maps to, and what [sorted] compares: text or a number.
    Scores are modelled as integers (Python ints are unbounded). *)
Inductive atom :=
  | Str (s : string)
  | Num (z : Z).

(** The objects found at a key of the store, by concrete Python type. *)
Inductive value :=
  | VStr (s : string)
  | VDict (d : gmap string atom)
  | VSet (s : gset string)
  | VList (l : list string).

(** The exceptions the commands can raise. *)
Inductive exn :=
  | KeyError
  | IndexError
  | TypeError
  | AttributeError
  | ValueError
  | RedisError
  | NotImplementedError.

Inductive result (A : Type) :=
  | Ok (a : A)
  | Raise (e : exn).
Arguments Ok {A} a.
Arguments Raise {A} e.

#[global] Instance atom_eq_dec : EqDecision atom.
Proof. solve_decision. Defined.
#[global] Instance value_eq_dec : EqDecision value.
Proof. solve_decision. Defined.
#[global] Instance exn_eq_dec : EqDecision exn.
Proof. solve_decision. Defined.

(** ** Commands as store transformers *)

(** The object bound to [self.redis]: a mapping from key to object. *)
Abbreviation store := (gmap string value).

Definition M (A : Type) : Type := store → result A * store.

Definition ret {A} (a : A) : M A := λ r, (Ok a, r).

#[global] Instance M_ret : MRet M := @ret.
#[global] Instance M_bind : MBind M := λ A B f m r,
  match m r with
  | (Ok a, r') => f a r'
  | (Raise e, r') => (Raise e, r')
  end.

Definition raise {A} (e : exn) : M A := λ r, (Raise e, r).

(** Lift the outcome of a pure operation on an object. *)
Definition lift {A} (x : result A) : M A := λ r, (x, r).

(** ** Operations of the Python objects *)

Module Py.

(** [len(obj)] *)
Definition len (v : value) : Z :=
  match v with
  | VStr s => Z.of_nat (String.length s)
  | VDict d => Z.of_nat (size d)
  | VSet s => Z.of_nat (size s)
  | VList l => Z.of_nat (length l)
  end.

(** The characters of a string, each as a string of length one. *)
Fixpoint chars (s : string) : list string :=
  match s with
  | EmptyString => []
  | String c s' => String c EmptyString :: chars s'
  end.

(** [for x in obj]: the keys of a dict, the members of a set, the
    elements of a list, the characters of a string.  Dicts and sets are
    walked in the fixed order of [map_to_list] and [elements]. *)
Definition iter (v : value) : list string :=
  match v with
  | VStr s => chars s
  | VDict d => (map_to_list d).*1
  | VSet s => elements s
  | VList l => l
  end.

(** [sub in s] for two strings: [sub] occurs somewhere in [s]. *)
Fixpoint is_substring (sub s : string) : bool :=
  String.prefix sub s ||
  match s with
  | EmptyString => false
  | String _ s' => is_substring sub s'
  end.

(** [x in obj] *)
Definition contains (x : string) (v : value) : bool :=
  match v with
  | VStr s => is_substring x s
  | VDict d => bool_decide (is_Some (d !! x))
  | VSet s => bool_decide (x ∈ s)
  | VList l => bool_decide (x ∈ l)
  end.

(** [obj[x]] with a string subscript: only a dict accepts it. *)
Definition getitem (v : value) (x : string) : result atom :=
  match v with
  | VDict d => match d !! x with Some a => Ok a | None => Raise KeyError end
  | VStr _ | VSet _ | VList _ => Raise TypeError
  end.

(** [obj[x] = a] with a string subscript: only a dict accepts it. *)
Definition setitem (v : value) (x : string) (a : atom) : result value :=
  match v with
  | VDict d => Ok (VDict (<[x := a]> d))
  | VStr _ | VSet _ | VList _ => Raise TypeError
  end.

(** A slice bound [i] on a sequence of length [n]: negative bounds count
    from the end, and everything is clipped to [0..n]. *)
Definition clip (n i : Z) : Z :=
  if (i <? 0)%Z then Z.max (i + n) 0 else Z.min i n.

(** [seq[a:b]] *)
Definition slice {A} (l : list A) (a b : Z) : list A :=
  let n := Z.of_nat (length l) in
  let lo := clip n a in
  let hi := clip n b in
  take (Z.to_nat (hi - lo)) (drop (Z.to_nat lo) l).

(** [obj[a:b]]: lists and strings can be sliced; a slice is not
    hashable, so a dict rejects it, and a set has no subscript. *)
Definition getslice (v : value) (a b : Z) : result value :=
  match v with
  | VList l => Ok (VList (slice l a b))
  | VStr s => Ok (VStr (string_of_list_ascii (slice (list_ascii_of_string s) a b)))
  | VDict _ | VSet _ => Raise TypeError
  end.

(** [obj.append(x)] *)
Definition append (v : value) (x : string) : result value :=
  match v with
  | VList l => Ok (VList (l ++ [x]))
  | VStr _ | VDict _ | VSet _ => Raise AttributeError
  end.

(** [obj.pop()] with no argument: the popped element and the object
    left.  A list gives up its last element, a set its first in
    iteration order; a dict wants an argument; a string has no [pop]. *)
Definition pop (v : value) : result (string * value) :=
  match v with
  | VList l =>
      match last l with
      | Some x => Ok (x, VList (removelast l))
      | None => Raise IndexError
      end
  | VSet s =>
      match elements s with
      | x :: _ => Ok (x, VSet (s ∖ {[x]}))
      | [] => Raise KeyError
      end
  | VDict _ => Raise TypeError
  | VStr _ => Raise AttributeError
  end.

(** [obj == []] *)
Definition eq_empty_list (v : value) : bool :=
  match v with
  | VList [] => true
  | _ => false
  end.

(** [obj.add(x)] *)
Definition add (v : value) (x : string) : result value :=
  match v with
  | VSet s => Ok (VSet ({[x]} ∪ s))
  | VStr _ | VDict _ | VList _ => Raise AttributeError
  end.

(** [obj.discard(x)] *)
Definition discard (v : value) (x : string) : result value :=
  match v with
  | VSet s => Ok (VSet (s ∖ {[x]}))
  | VStr _ | VDict _ | VList _ => Raise AttributeError
  end.

(** [obj.iteritems()]: only a dict has it. *)
Definition iteritems (v : value) : result (list (string * atom)) :=
  match v with
  | VDict d => Ok (map_to_list d)
  | VStr _ | VSet _ | VList _ => Raise AttributeError
  end.

(** Python 2 ordering of the objects a dict holds: numbers by value,
    strings by their characters, and every number below every string. *)
Definition atom_ltb (a b : atom) : bool :=
  match a, b with
  | Num x, Num y => (x <? y)%Z
  | Num _, Str _ => true
  | Str _, Num _ => false
  | Str s, Str t => String.ltb s t
  end.

(** [sorted(items, key=itemgetter(1), reverse=True)].  [sorted] is stable
    also when reversed: items with equal keys keep their input order.
    An insertion sort that puts an item before the first item whose key
    is not greater computes exactly that list. *)
Fixpoint insert_desc (x : string * atom) (l : list (string * atom))
  : list (string * atom) :=
  match l with
  | [] => [x]
  | y :: l' =>
      if atom_ltb x.2 y.2 then y :: insert_desc x l' else x :: y :: l'
  end.

Definition sorted_desc (l : list (string * atom)) : list (string * atom) :=
  foldr insert_desc [] l.

(** [random.randint(a, b)]: a number of [a..b], here picked by the draw
    [rnd] of the random source; an empty range raises [ValueError]. *)
Definition randint (rnd : Z) (a b : Z) : result Z :=
  if (b <? a)%Z then Raise ValueError
  else Ok (a + rnd mod (b - a + 1))%Z.

End Py.

(** ** The regular expressions of [keys] *)

(** [keys] builds a regular expression from its pattern and hands it to
    [re.match].  The model covers the patterns in which [*] is the only
    character with a meaning of its own in a regular expression. *)
Module Re.

(** The line feed, which [.] does not match and [$] looks past. *)
Definition newline : ascii := "010"%char.

(** The characters that are not taken literally. *)
Definition special (c : ascii) : bool :=
  bool_decide (c ∈ list_ascii_of_string ".^$*+?{}[]\|()").

(** What such an expression is made of: a literal character, or [.*]. *)
Inductive item :=
  | Char (c : ascii)
  | AnyStar.

(** [pattern.replace('*', '.*')] as an expression; [None] when the
    pattern has another special character and is not covered. *)
Fixpoint compile (pattern : string) : option (list item) :=
  match pattern with
  | EmptyString => Some []
  | String c pattern' =>
      match compile pattern' with
      | None => None
      | Some items =>
          if Ascii.eqb c "*" then Some (AnyStar :: items)
          else if special c then None
          else Some (Char c :: items)
      end
  end.

(** [$] without [MULTILINE]: the end of the string, or the position just
    before a line feed that ends the string. *)
Definition at_end (s : list ascii) : bool :=
  match s with
  | [] => true
  | [c] => Ascii.eqb c newline
  | _ => false
  end.

(** Whether the items followed by [$] match all of [s].  [.*] takes any
    number of characters other than the line feed; every way of sharing
    the string out is tried, as backtracking does. *)
Fixpoint match_items (items : list item) (s : list ascii) : bool :=
  match items with
  | [] => at_end s
  | Char c :: items' =>
      match s with
      | c' :: s' => Ascii.eqb c c' && match_items items' s'
      | [] => false
      end
  | AnyStar :: items' =>
      (fix any_star (s : list ascii) : bool :=
         match_items items' s ||
         match s with
         | c :: s' => negb (Ascii.eqb c newline) && any_star s'
         | [] => false
         end) s
  end.

(** [re.match('^' + ... + '$', key)], as a truth value. *)
Definition re_match (regex : list item) (key : string) : bool :=
  match_items regex (list_ascii_of_string key).

End Re.

(** The concrete type of an object, as [type(obj)] reports it. *)
Inductive pytype := Tdict | Tstr | Tset | Tlist.

#[global] Instance pytype_eq_dec : EqDecision pytype.
Proof. solve_decision. Defined.

Definition type_of (v : value) : pytype :=
  match v with
  | VStr _ => Tstr
  | VDict _ => Tdict
  | VSet _ => Tset
  | VList _ => Tlist
  end.

(** ** The commands of [MockRedis] *)

Module MockRedis.

(** *** The defaultdict bound to [self.redis] *)

(** [self.redis[key]]: a missing key is first bound to a new empty dict
    (the [default_factory] of [defaultdict(dict)]). *)
Definition redis_getitem (key : string) : M value := λ r,
  match r !! key with
  | Some v => (Ok v, r)
  | None => (Ok (VDict ∅), <[key := VDict ∅]> r)
  end.

(** [key in self.redis] and [self.redis.has_key(key)]: no insertion. *)
Definition redis_contains (key : string) : M bool := λ r,
  (Ok (bool_decide (is_Some (r !! key))), r).

(** [self.redis[key] = v] *)
Definition redis_setitem (key : string) (v : value) : M unit := λ r,
  (Ok (), <[key := v]> r).

(** [del self.redis[key]] *)
Definition redis_delitem (key : string) : M unit := λ r,
  match r !! key with
  | Some _ => (Ok (), base.delete key r)
  | None => (Raise KeyError, r)
  end.

(** [self.redis[key].op(...)] for an [op] that changes the object in
    place: the object is fetched (and created if missing), and what [op]
    leaves of it is what the key holds afterwards. *)
Definition mutate (key : string) (op : value → result value) : M unit :=
  v ← redis_getitem key;
  v' ← lift (op v);
  redis_setitem key v'.

(** [for x in xs: body(x)] *)
Fixpoint for_each {A} (xs : list A) (body : A → M unit) : M unit :=
  match xs with
  | [] => ret ()
  | x :: xs' => body x;; for_each xs' body
  end.

(** *** Keys *)

Definition type (key : string) : M (option string) :=
  v ← redis_getitem key;
  let _type := type_of v in
  if decide (_type = Tdict) then ret (Some "hash")
  else if decide (_type = Tstr) then ret (Some "string")
  else if decide (_type = Tset) then ret (Some "set")
  else if decide (_type = Tlist) then ret (Some "list")
  else ret None.

Definition get (key : string) : M value :=
  present ← redis_contains key;
  if negb present then ret (VStr "") else redis_getitem key.

Definition delete (key : string) : M unit :=
  present ← redis_contains key;
  if (present : bool) then redis_delitem key else ret ().

Definition exists_ (key : string) : M bool :=
  redis_contains key.

(** *** Hashes *)

Definition hget (hashkey attribute : string) : M atom :=
  v ← redis_getitem hashkey;
  if Py.contains attribute v then
    v' ← redis_getitem hashkey;
    lift (Py.getitem v' attribute)
  else ret (Str "").

Definition hgetall (hashkey : string) : M value :=
  redis_getitem hashkey.

Definition hlen (hashkey : string) : M Z :=
  v ← redis_getitem hashkey;
  ret (Py.len v).

Definition hmset (hashkey : string) (value : gmap string atom) : M unit :=
  for_each (map_to_list value) (λ '(attributekey, attributevalue),
    mutate hashkey (λ v, Py.setitem v attributekey attributevalue)).

Definition hset (hashkey attribute : string) (value : atom) : M unit :=
  mutate hashkey (λ v, Py.setitem v attribute value).

(** *** Lists *)

(** On a missing key [lrange] binds the key to an empty list and falls
    off the end of the function, so it returns [None]. *)
Definition lrange (key : string) (start stop : Z) : M (option value) :=
  present ← redis_contains key;
  if (present : bool) then
    v ← redis_getitem key;
    s ← lift (Py.getslice v start (stop + 1));
    ret (Some s)
  else
    redis_setitem key (VList []);;
    ret None.

Definition rpush (key : string) (args : list string) : M unit :=
  present ← redis_contains key;
  (if negb present then redis_setitem key (VList []) else ret ());;
  for_each args (λ arg, mutate key (λ v, Py.append v arg)).

Definition rpop (key : string) : M (option string) :=
  present ← redis_contains key;
  if (present : bool) then
    v ← redis_getitem key;
    '(result, v') ← lift (Py.pop v);
    redis_setitem key v';;
    v'' ← redis_getitem key;
    (if Py.eq_empty_list v'' then delete key else ret ());;
    ret (Some result)
  else ret None.

(** *** Sets *)

Definition sadd (key value : string) : M unit :=
  present ← redis_contains key;
  if (present : bool) then mutate key (λ v, Py.add v value)
  else redis_setitem key (VSet {[value]}).

Definition srem (key member : string) : M unit :=
  mutate key (λ v, Py.discard v member).

(** The loop of [srandmember].  The counter [i] is passed on as it is:
    the source never assigns it inside the loop. *)
Fixpoint srandmember_loop (i rand_index : Z) (items : list string)
  : option string :=
  match items with
  | [] => None
  | set_item :: items' =>
      if (i =? rand_index)%Z then Some set_item
      else srandmember_loop i rand_index items'
  end.

(** [rnd] is the draw of the random source used by [random.randint]. *)
Definition srandmember (rnd : Z) (key : string) : M (option string) :=
  v ← redis_getitem key;
  let length := Py.len v in
  rand_index ← lift (Py.randint rnd 0 (length - 1));
  let i := 0%Z in
  v' ← redis_getitem key;
  ret (srandmember_loop i rand_index (Py.iter v')).

Definition smembers (key : string) : M value :=
  redis_getitem key.

Definition flushdb : M unit := λ _, (Ok (), ∅).

(** *** Sorted sets *)

(** The body of [zadd], on its parameters as Python has bound them:
    [value] and [score] are the deprecated pair, [pairs] the dict of the
    keyword arguments left over.  Python never leaves a keyword named like
    a parameter in [pairs]; how a call binds its keywords is [zadd_call].
    [warnings.warn] is taken to only report. *)
Definition zadd (name : string) (value : option string) (score : option atom)
    (pairs : gmap string atom) : M unit :=
  let all_pairs : gmap string atom := ∅ in
  all_pairs ←
    match value, score with
    | None, None => ret all_pairs
    | Some value, Some score => ret (<[value := score]> all_pairs)
    | _, _ => raise RedisError
    end;
  let all_pairs :=
    foldl (λ acc pair, <[pair.1 := pair.2]> acc) all_pairs (map_to_list pairs) in
  for_each (map_to_list all_pairs) (λ '(key, score),
    mutate name (λ v, Py.setitem v key score)).

(** A call [zadd(name, **kwargs)].  A keyword named [self] or [name]
    gives the parameter a second value, which is a [TypeError] of the call.
    A keyword named [value] or [score] is bound to that parameter and is
    not among the pairs; the others are.  With [value] but no [score] the
    body raises before it uses [value].  A number bound to [value] together
    with a score would be stored as a member that is not text: such a call
    is not covered ([None]). *)
Definition zadd_call (name : string) (kwargs : gmap string atom)
  : option (M unit) :=
  if bool_decide (is_Some (kwargs !! "self") ∨ is_Some (kwargs !! "name"))
  then Some (raise TypeError)
  else
    let pairs := base.delete "value" (base.delete "score" kwargs) in
    match kwargs !! "value", kwargs !! "score" with
    | Some (Str value), score => Some (zadd name (Some value) score pairs)
    | Some (Num _), None => Some (raise RedisError)
    | Some (Num _), Some _ => None
    | None, score => Some (zadd name None score pairs)
    end.

Definition zscore (name value : string) : M atom :=
  v ← redis_getitem name;
  lift (Py.getitem v value).

Definition zrevrange (name : string) (start num : Z) (withscores : bool)
  : M (list string) :=
  if withscores then raise NotImplementedError
  else
    v ← redis_getitem name;
    items ← lift (Py.iteritems v);
    let items_descending_by_score := Py.sorted_desc items in
    let selected_items :=
      Py.slice items_descending_by_score start (start + num) in
    ret (selected_items.*1).

Definition zcard (name : string) : M Z :=
  v ← redis_getitem name;
  ret (Py.len v).

(** *** Key scan and pipeline stub *)

(** The keys are listed in the order the dict yields them.  [None] stands
    for a pattern outside the expressions modelled in [Re]. *)
Definition keys (pattern : string) : option (M (list string)) :=
  match Re.compile pattern with
  | None => None
  | Some regex =>
      Some (λ r,
        (Ok (filter (λ key, Re.re_match regex key = true) (map_to_list r).*1),
         r))
  end.

Definition execute : M unit := ret ().

End MockRedis.

(** ** The commands as data *)

(** One constructor per store command of the class.  [keys], [lock],
    [pipeline] and [execute] are left out: they do not write to the
    mapping, and the last three only hand it to other modules. *)
Inductive command :=
  | Ctype (key : string)
  | Cget (key : string)
  | Cdelete (key : string)
  | Cexists (key : string)
  | Chget (hashkey attribute : string)
  | Chgetall (hashkey : string)
  | Chlen (hashkey : string)
  | Chmset (hashkey : string) (value : gmap string atom)
  | Chset (hashkey attribute : string) (value : atom)
  | Clrange (key : string) (start stop : Z)
  | Crpush (key : string) (args : list string)
  | Crpop (key : string)
  | Csadd (key value : string)
  | Csrem (key member : string)
  | Csrandmember (rnd : Z) (key : string)
  | Csmembers (key : string)
  | Cflushdb
  | Czadd (name : string) (value : option string) (score : option atom)
      (pairs : gmap string atom)
  | Czscore (name value : string)
  | Czrevrange (name : string) (start num : Z) (withscores : bool)
  | Czcard (name : string).

(** The exception a call ended with, if any, and the store it left. *)
Definition outcome {A} (x : result A * store) : option exn * store :=
  match x with
  | (Ok _, r) => (None, r)
  | (Raise e, r) => (Some e, r)
  end.

Definition run (c : command) (r : store) : option exn * store :=
  match c with
  | Ctype key => outcome (MockRedis.type key r)
  | Cget key => outcome (MockRedis.get key r)
  | Cdelete key => outcome (MockRedis.delete key r)
  | Cexists key => outcome (MockRedis.exists_ key r)
  | Chget hashkey attribute => outcome (MockRedis.hget hashkey attribute r)
  | Chgetall hashkey => outcome (MockRedis.hgetall hashkey r)
  | Chlen hashkey => outcome (MockRedis.hlen hashkey r)
  | Chmset hashkey value => outcome (MockRedis.hmset hashkey value r)
  | Chset hashkey attribute value =>
      outcome (MockRedis.hset hashkey attribute value r)
  | Clrange key start stop => outcome (MockRedis.lrange key start stop r)
  | Crpush key args => outcome (MockRedis.rpush key args r)
  | Crpop key => outcome (MockRedis.rpop key r)
  | Csadd key value => outcome (MockRedis.sadd key value r)
  | Csrem key member => outcome (MockRedis.srem key member r)
  | Csrandmember rnd key => outcome (MockRedis.srandmember rnd key r)
  | Csmembers key => outcome (MockRedis.smembers key r)
  | Cflushdb => outcome (MockRedis.flushdb r)
  | Czadd name value score pairs =>
      outcome (MockRedis.zadd name value score pairs r)
  | Czscore name value => outcome (MockRedis.zscore name value r)
  | Czrevrange name start num withscores =>
      outcome (MockRedis.zrevrange name start num withscores r)
  | Czcard name => outcome (MockRedis.zcard name r)
  end.

(** The key a command is called on ([flushdb] has none). *)
Definition command_key (c : command) : option string :=
  match c with
  | Ctype key | Cget key | Cdelete key | Cexists key
  | Chget key _ | Chgetall key | Chlen key | Chmset key _ | Chset key _ _
  | Clrange key _ _ | Crpush key _ | Crpop key
  | Csadd key _ | Csrem key _ | Csrandmember _ key | Csmembers key
  | Czadd key _ _ _ | Czscore key _ | Czrevrange key _ _ _ | Czcard key =>
      Some key
  | Cflushdb => None
  end.

(** ** The class attribute and the instances *)









(** ** Predicates of the statements *)

(** An item of a dict whose value is a number. *)
Definition numeric (p : string * atom) : Prop := ∃ z, p.2 = Num z.

(** Two items with numeric values, the first not below the second. *)
Definition score_ge (x y : string * atom) : Prop :=
  ∃ zx zy, x.2 = Num zx ∧ y.2 = Num zy ∧ (zy ≤ zx)%Z.

(** A caller that issues the commands one after the other, going on after
    an exception: the store left at the end. *)
Definition run_all (cs : list command) (r : store) : store :=
  foldl (λ r c, (run c r).2) r cs.

(** Commands that can take a key out of the store. *)
Definition may_remove (c : command) : bool :=
  match c with
  | Cdelete _ | Crpop _ | Cflushdb => true
  | _ => false
  end.


(** The dict a hash or sorted-set command works on at a key: the one
    stored there, or the empty one that the lookup makes for a missing key. *)
Definition dict_at (key : string) (r : store) (d : gmap string atom) : Prop :=
  r !! key = Some (VDict d) ∨ (r !! key = None ∧ d = ∅).

(** A pattern, or a part of one, without special characters. *)
Definition literal_text (p : string) : Prop :=
  Forall (λ c, Re.special c = false) (list_ascii_of_string p).

(** Keyword arguments none of which is named like a parameter of [zadd]:
    what [**pairs] can hold. *)
Definition keyword_pairs {A} (pairs : gmap string A) : Prop :=
  pairs !! "self" = None ∧ pairs !! "name" = None
  ∧ pairs !! "value" = None ∧ pairs !! "score" = None.

(** Commands that never make an entry for a key that has none. *)
Definition never_creates (c : command) : bool :=
  match c with
  | Cget _ | Cdelete _ | Cexists _ | Crpop _ | Cflushdb => true
  | Czrevrange _ _ _ withscores => withscores
  | _ => false
  end.

(** Commands that begin by reading [self.redis[key]] and do not write to
    the object they find. *)
Definition looks_up (c : command) : bool :=
  match c with
  | Ctype _ | Chget _ _ | Chgetall _ | Chlen _ | Csrem _ _
  | Csrandmember _ _ | Csmembers _ | Czscore _ _ | Czcard _ => true
  | Czrevrange _ _ _ withscores => negb withscores
  | _ => false
  end.

(** * Properties *)

(** ** The defaultdict *)

Section Defaultdict.
Context (key : string) (r : store).

Lemma redis_getitem_Some v :
  r !! key = Some v → MockRedis.redis_getitem key r = (Ok v, r).
Proof. intros H. unfold MockRedis.redis_getitem. by rewrite H. Qed.

Lemma redis_getitem_None :
  r !! key = None →
  MockRedis.redis_getitem key r = (Ok (VDict ∅), <[key := VDict ∅]> r).
Proof. intros H. unfold MockRedis.redis_getitem. by rewrite H. Qed.

Lemma redis_contains_Some v :
  r !! key = Some v → MockRedis.redis_contains key r = (Ok true, r).
Proof.
  intros H. unfold MockRedis.redis_contains.
  rewrite bool_decide_eq_true_2; [done | by rewrite H].
Qed.

Lemma redis_contains_None :
  r !! key = None → MockRedis.redis_contains key r = (Ok false, r).
Proof.
  intros H. unfold MockRedis.redis_contains.
  rewrite bool_decide_eq_false_2; [done |]. rewrite H. by intros [? ?].
Qed.

End Defaultdict.

Lemma redis_getitem_insert key v (r : store) :
  MockRedis.redis_getitem key (<[key := v]> r) = (Ok v, <[key := v]> r).
Proof. apply redis_getitem_Some, lookup_insert_eq. Qed.

Lemma redis_contains_insert key v (r : store) :
  MockRedis.redis_contains key (<[key := v]> r) = (Ok true, <[key := v]> r).
Proof. eapply redis_contains_Some, lookup_insert_eq. Qed.

(** Unfold the monad and evaluate the store lookups that are known. *)
Ltac step :=
  unfold mbind, M_bind, ret, lift, raise, MockRedis.redis_setitem; cbn beta iota;
  repeat first
    [ rewrite redis_getitem_insert
    | rewrite redis_contains_insert
    | erewrite redis_getitem_Some by eassumption
    | erewrite redis_contains_Some by eassumption
    | rewrite redis_getitem_None by assumption
    | rewrite redis_contains_None by assumption
    | rewrite insert_insert_eq ];
  cbn beta iota.

(** ** Sorted-set scores *)

(** C6: [zscore] returns the score stored for the member when the sorted
    set and the member exist; it raises [KeyError] when the member is not
    in the sorted set and when there is no sorted set at the name; and a
    value it returns is always a stored score, never a default. *)
Theorem zscore_score_or_KeyError (name member : string) (r : store) :
  (∀ d score, r !! name = Some (VDict d) → d !! member = Some score →
     MockRedis.zscore name member r = (Ok score, r))
  ∧ (∀ d, r !! name = Some (VDict d) → d !! member = None →
     (MockRedis.zscore name member r).1 = Raise KeyError)
  ∧ (r !! name = None →
     (MockRedis.zscore name member r).1 = Raise KeyError)
  ∧ (∀ a, (MockRedis.zscore name member r).1 = Ok a →
     ∃ d, r !! name = Some (VDict d) ∧ d !! member = Some a).
Proof.
  unfold MockRedis.zscore. repeat split.
  - intros d score Hn Hm. step. cbn. by rewrite Hm.
  - intros d Hn Hm. step. cbn. by rewrite Hm.
  - intros Hn. step. cbn. by rewrite lookup_empty.
  - intros a. destruct (r !! name) as [v|] eqn:Hn; step.
    + destruct v as [s|d|s|l]; cbn; try discriminate.
      destruct (d !! member) as [a'|] eqn:Hm; cbn; [|discriminate].
      intros [= <-]. eauto.
    + cbn. rewrite lookup_empty. discriminate.
Qed.

Lemma zscore_score_or_KeyError_witness :
  MockRedis.zscore "z" "a" {[ "z" := VDict {[ "a" := Num 7 ]} ]}
    = (Ok (Num 7), {[ "z" := VDict {[ "a" := Num 7 ]} ]})
  ∧ (MockRedis.zscore "z" "b" {[ "z" := VDict {[ "a" := Num 7 ]} ]}).1
    = Raise KeyError
  ∧ (MockRedis.zscore "z" "a" ∅).1 = Raise KeyError
  ∧ ∃ d, ({[ "z" := VDict {[ "a" := Num 7 ]} ]} : store) !! "z" = Some (VDict d)
         ∧ d !! "a" = Some (Num 7).
Proof.
  destruct (zscore_score_or_KeyError "z" "a" {[ "z" := VDict {[ "a" := Num 7 ]} ]})
    as (Hscore & _ & _ & Hstored).
  destruct (zscore_score_or_KeyError "z" "b" {[ "z" := VDict {[ "a" := Num 7 ]} ]})
    as (_ & Hmember & _ & _).
  destruct (zscore_score_or_KeyError "z" "a" ∅) as (_ & _ & Hname & _).
  split; [apply (Hscore {[ "a" := Num 7 ]}); reflexivity|].
  split; [apply (Hmember {[ "a" := Num 7 ]}); reflexivity|].
  split; [apply Hname; reflexivity|].
  apply Hstored. reflexivity.
Defined.

(** ** Type inspection *)

(** C2, as the code has it: [type] never fails and answers with one of
    hash, string, set, list (a sorted set is a dict and reads as hash; the
    answer none is kept for objects of no other kind).  On a key that is
    present it leaves the store as it was.  On an absent key it answers
    hash and leaves the key bound to an empty hash; no other key changes. *)
Theorem type_kind_and_store (key : string) (r : store) :
  (∃ t, (MockRedis.type key r).1 = Ok t
        ∧ t ∈ [Some "hash"; Some "string"; Some "set"; Some "list"; None])
  ∧ (∀ v, r !! key = Some v →
       MockRedis.type key r =
         (Ok (Some match v with
                   | VDict _ => "hash" | VStr _ => "string"
                   | VSet _ => "set" | VList _ => "list"
                   end), r))
  ∧ (r !! key = None →
       MockRedis.type key r = (Ok (Some "hash"), <[key := VDict ∅]> r))
  ∧ (∀ k, k ≠ key → (MockRedis.type key r).2 !! k = r !! k).
Proof.
  assert (Hpres : ∀ v, r !! key = Some v →
       MockRedis.type key r =
         (Ok (Some match v with
                   | VDict _ => "hash" | VStr _ => "string"
                   | VSet _ => "set" | VList _ => "list"
                   end), r)).
  { intros v Hv. unfold MockRedis.type. step. by destruct v. }
  assert (Habs : r !! key = None →
       MockRedis.type key r = (Ok (Some "hash"), <[key := VDict ∅]> r)).
  { intros Hn. unfold MockRedis.type. by step. }
  split; [|split; [exact Hpres|split; [exact Habs|]]].
  - destruct (r !! key) as [v|] eqn:Hk.
    + rewrite (Hpres v eq_refl). eexists; split; [reflexivity|].
      destruct v; set_solver.
    + rewrite (Habs eq_refl). eexists; split; [reflexivity|]. set_solver.
  - intros k Hne. destruct (r !! key) as [v|] eqn:Hk.
    + by rewrite (Hpres v eq_refl).
    + rewrite (Habs eq_refl). cbn. by rewrite lookup_insert_ne.
Qed.

Lemma type_kind_and_store_witness :
  MockRedis.type "l" {[ "l" := VList ["a"] ]}
    = (Ok (Some "list"), {[ "l" := VList ["a"] ]})
  ∧ MockRedis.type "k" ∅ = (Ok (Some "hash"), <["k" := VDict ∅]> ∅)
  ∧ (MockRedis.type "k" {[ "l" := VList ["a"] ]}).2 !! "l"
    = ({[ "l" := VList ["a"] ]} : store) !! "l".
Proof.
  destruct (type_kind_and_store "l" {[ "l" := VList ["a"] ]}) as (_ & Hpres & _ & _).
  destruct (type_kind_and_store "k" ∅) as (_ & _ & Habs & _).
  destruct (type_kind_and_store "k" {[ "l" := VList ["a"] ]}) as (_ & _ & _ & Hother).
  split; [apply (Hpres (VList ["a"])); reflexivity|].
  split; [apply Habs; reflexivity|].
  apply Hother. discriminate.
Defined.

(** C2 as stated fails on an absent key: [type] answers hash, not none,
    and the key exists afterwards although it did not before. *)
Lemma type_absent_key_counterexample :
  (∅ : store) !! "k" = None
  ∧ (MockRedis.type "k" ∅).1 = Ok (Some "hash")
  ∧ (MockRedis.type "k" ∅).1 ≠ Ok None
  ∧ (MockRedis.type "k" ∅).2 ≠ ∅
  ∧ (MockRedis.exists_ "k" ∅).1 = Ok false
  ∧ (MockRedis.exists_ "k" (MockRedis.type "k" ∅).2).1 = Ok true.
Proof.
  repeat split; solve [reflexivity | discriminate].
Qed.

(** ** Lists *)

Lemma mutate_Some key op v v' (r : store) :
  r !! key = Some v → op v = Ok v' →
  MockRedis.mutate key op r = (Ok (), <[key := v']> r).
Proof. intros Hk Hop. unfold MockRedis.mutate. step. rewrite Hop. by step. Qed.

Lemma mutate_Some_raise key op v e (r : store) :
  r !! key = Some v → op v = Raise e →
  MockRedis.mutate key op r = (Raise e, r).
Proof. intros Hk Hop. unfold MockRedis.mutate. step. by rewrite Hop. Qed.

Lemma mutate_None key op v' (r : store) :
  r !! key = None → op (VDict ∅) = Ok v' →
  MockRedis.mutate key op r = (Ok (), <[key := v']> r).
Proof. intros Hk Hop. unfold MockRedis.mutate. step. rewrite Hop. by step. Qed.

Lemma mutate_None_raise key op e (r : store) :
  r !! key = None → op (VDict ∅) = Raise e →
  MockRedis.mutate key op r = (Raise e, <[key := VDict ∅]> r).
Proof. intros Hk Hop. unfold MockRedis.mutate. step. by rewrite Hop. Qed.

(** The appending loop of [rpush] on a key that holds a list. *)
Lemma rpush_loop key args : ∀ l (r : store),
  r !! key = Some (VList l) →
  MockRedis.for_each args (λ arg, MockRedis.mutate key (λ v, Py.append v arg)) r
  = (Ok (), <[key := VList (l ++ args)]> r).
Proof.
  induction args as [|arg args IH]; intros l r Hk; cbn [MockRedis.for_each].
  - rewrite app_nil_r, insert_id by done. done.
  - unfold mbind, M_bind.
    rewrite (mutate_Some key _ (VList l) (VList (l ++ [arg]))) by done.
    rewrite (IH (l ++ [arg])) by apply lookup_insert_eq.
    by rewrite insert_insert_eq, <- app_assoc.
Qed.

Lemma rpush_absent key args (r : store) :
  r !! key = None →
  MockRedis.rpush key args r = (Ok (), <[key := VList args]> r).
Proof.
  intros Hk. unfold MockRedis.rpush. step. cbn [negb].
  unfold MockRedis.redis_setitem.
  rewrite (rpush_loop key args []) by apply lookup_insert_eq.
  by rewrite insert_insert_eq.
Qed.

Lemma rpush_list key args l (r : store) :
  r !! key = Some (VList l) →
  MockRedis.rpush key args r = (Ok (), <[key := VList (l ++ args)]> r).
Proof.
  intros Hk. unfold MockRedis.rpush. step. cbn [negb]. unfold ret.
  by apply rpush_loop.
Qed.

Lemma pop_snoc l x : Py.pop (VList (l ++ [x])) = Ok (x, VList l).
Proof. cbn. by rewrite last_snoc, removelast_last. Qed.

Lemma delete_present key v (r : store) :
  r !! key = Some v → MockRedis.delete key r = (Ok (), base.delete key r).
Proof.
  intros Hk. unfold MockRedis.delete. step.
  unfold MockRedis.redis_delitem. by rewrite Hk.
Qed.

Lemma delete_absent key (r : store) :
  r !! key = None → MockRedis.delete key r = (Ok (), r).
Proof. intros Hk. unfold MockRedis.delete. by step. Qed.

(** [rpop] on a key that holds a list with a last element. *)
Lemma rpop_snoc key l x (r : store) :
  r !! key = Some (VList (l ++ [x])) →
  MockRedis.rpop key r =
    (Ok (Some x),
     if decide (l = []) then base.delete key r else <[key := VList l]> r).
Proof.
  intros Hk. unfold MockRedis.rpop. step. rewrite pop_snoc. step.
  destruct l as [|y l]; cbn [Py.eq_empty_list].
  - rewrite (delete_present key (VList [])) by apply lookup_insert_eq.
    by rewrite delete_insert_eq.
  - done.
Qed.

(** C4: on a store without the key, [rpush] of two values followed by
    [rpop] returns the second value, and a second [rpop] returns the first
    and removes the key, so that [exists] is false again.  In general
    [rpop] on a list removes its last element and returns it, and deletes
    the key exactly when no element is left. *)
Theorem rpush_rpop_tail :
  (∀ (key a b : string) (r : store), r !! key = None →
     let r1 := (MockRedis.rpush key [a; b] r).2 in
     let r2 := (MockRedis.rpop key r1).2 in
     let r3 := (MockRedis.rpop key r2).2 in
     (MockRedis.rpush key [a; b] r).1 = Ok ()
     ∧ (MockRedis.rpop key r1).1 = Ok (Some b)
     ∧ (MockRedis.exists_ key r2).1 = Ok true
     ∧ (MockRedis.rpop key r2).1 = Ok (Some a)
     ∧ r3 !! key = None
     ∧ (MockRedis.exists_ key r3).1 = Ok false)
  ∧ (∀ (key x : string) (l : list string) (r : store),
     r !! key = Some (VList (l ++ [x])) →
     (MockRedis.rpop key r).1 = Ok (Some x)
     ∧ (l ≠ [] → (MockRedis.rpop key r).2 = <[key := VList l]> r)
     ∧ (l = [] → (MockRedis.rpop key r).2 = base.delete key r
                 ∧ (MockRedis.exists_ key (MockRedis.rpop key r).2).1 = Ok false)).
Proof.
  split.
  - intros key a b r Hk. cbn zeta.
    rewrite rpush_absent by done. cbn [fst snd].
    rewrite (rpop_snoc key [a] b) by apply lookup_insert_eq.
    cbn [fst snd]. rewrite decide_False by done. rewrite insert_insert_eq.
    rewrite (rpop_snoc key [] a) by apply lookup_insert_eq.
    cbn [fst snd]. rewrite decide_True by done.
    rewrite delete_insert_eq.
    unfold MockRedis.exists_. rewrite redis_contains_insert.
    rewrite redis_contains_None by apply lookup_delete_eq.
    repeat split; try done. apply lookup_delete_eq.
  - intros key x l r Hk. rewrite (rpop_snoc key l x) by done. cbn [fst snd].
    split; [done|]. split.
    + intros Hl. by rewrite decide_False.
    + intros Hl. rewrite decide_True by done. split; [done|].
      unfold MockRedis.exists_.
      by rewrite redis_contains_None by apply lookup_delete_eq.
Qed.

Lemma rpush_rpop_tail_witness :
  let r1 := (MockRedis.rpush "q" ["1"; "2"] ∅).2 in
  let r2 := (MockRedis.rpop "q" r1).2 in
  let r3 := (MockRedis.rpop "q" r2).2 in
  (MockRedis.rpush "q" ["1"; "2"] ∅).1 = Ok ()
  ∧ (MockRedis.rpop "q" r1).1 = Ok (Some "2")
  ∧ (MockRedis.exists_ "q" r2).1 = Ok true
  ∧ (MockRedis.rpop "q" r2).1 = Ok (Some "1")
  ∧ r3 !! "q" = None
  ∧ (MockRedis.exists_ "q" r3).1 = Ok false.
Proof.
  destruct rpush_rpop_tail as [Hscenario _].
  apply (Hscenario "q" "1" "2" ∅). reflexivity.
Defined.

(** ** Sets *)

Lemma srem_set key member s (r : store) :
  r !! key = Some (VSet s) →
  MockRedis.srem key member r = (Ok (), <[key := VSet (s ∖ {[member]})]> r).
Proof. intros Hk. unfold MockRedis.srem. by apply mutate_Some with (VSet s). Qed.

(** Without the key, [self.redis[key]] is a new dict, and a dict has no
    [discard]. *)
Lemma srem_absent key member (r : store) :
  r !! key = None →
  MockRedis.srem key member r = (Raise AttributeError, <[key := VDict ∅]> r).
Proof. intros Hk. unfold MockRedis.srem. by apply mutate_None_raise. Qed.

(** C9, where the code departs from it: [srem] on a key that the store
    does not hold raises [AttributeError] (and leaves an empty hash at the
    key), whereas on a set it removes the member, or nothing, silently. *)
Theorem srem_absent_key_raises :
  MockRedis.srem "k" "x" ∅ = (Raise AttributeError, {[ "k" := VDict ∅ ]})
  ∧ MockRedis.srem "k" "x" {[ "k" := VSet {[ "x"; "y" ]} ]}
    = (Ok (), {[ "k" := VSet {[ "y" ]} ]})
  ∧ MockRedis.srem "k" "x" {[ "k" := VSet {[ "y" ]} ]}
    = (Ok (), {[ "k" := VSet {[ "y" ]} ]}).
Proof.
  split; [|split].
  - by rewrite srem_absent.
  - by rewrite (srem_set "k" "x" {[ "x"; "y" ]}).
  - by rewrite (srem_set "k" "x" {[ "y" ]}).
Qed.

(** With the counter stuck at its initial value, the loop can only ever
    return the first item, and does so only for the index equal to it. *)
Lemma srandmember_loop_stuck i rand_index items :
  MockRedis.srandmember_loop i rand_index items =
    if (i =? rand_index)%Z then head items else None.
Proof.
  induction items as [|x items IH]; cbn.
  - by destruct (i =? rand_index)%Z.
  - rewrite IH. by destruct (i =? rand_index)%Z.
Qed.

Lemma srandmember_set rnd key s (r : store) :
  r !! key = Some (VSet s) → s ≠ ∅ →
  MockRedis.srandmember rnd key r =
    (Ok (if (rnd mod Z.of_nat (size s) =? 0)%Z then head (elements s) else None), r).
Proof.
  intros Hk Hs. unfold MockRedis.srandmember. step. cbn [Py.len].
  assert (size s ≠ 0) as Hsz by (by intros ?%size_empty_inv%leibniz_equiv).
  unfold Py.randint. rewrite (proj2 (Z.ltb_ge _ _)) by lia.
  step. rewrite srandmember_loop_stuck. cbn [Py.iter].
  replace (Z.of_nat (size s) - 1 - 0 + 1)%Z with (Z.of_nat (size s)) by lia.
  rewrite Z.add_0_l. by rewrite (Z.eqb_sym 0).
Qed.

(** Any draw that selects an index other than the first yields [None]. *)
Lemma srandmember_later_index rnd key s (r : store) :
  r !! key = Some (VSet s) → (0 < rnd < Z.of_nat (size s))%Z →
  MockRedis.srandmember rnd key r = (Ok None, r).
Proof.
  intros Hk Hrnd.
  assert (s ≠ ∅) as Hs by (intros ->; rewrite size_empty in Hrnd; lia).
  rewrite (srandmember_set rnd key s) by done.
  rewrite Z.mod_small by lia. by rewrite (proj2 (Z.eqb_neq _ _)) by lia.
Qed.

Lemma srandmember_empty_set rnd key (r : store) :
  r !! key = Some (VSet ∅) →
  MockRedis.srandmember rnd key r = (Raise ValueError, r).
Proof. intros Hk. unfold MockRedis.srandmember. by step. Qed.

(** C3, where the code departs from it: on the two-member set the draw
    that selects the second index makes [srandmember] return [None], no
    member of the set; only the draw selecting the first index returns a
    member.  On the empty set the call fails with [ValueError]. *)
Theorem srandmember_returns_None :
  MockRedis.srandmember 1 "s" {[ "s" := VSet {[ "a"; "b" ]} ]}
    = (Ok None, {[ "s" := VSet {[ "a"; "b" ]} ]})
  ∧ (∃ x, (MockRedis.srandmember 0 "s" {[ "s" := VSet {[ "a"; "b" ]} ]}).1
          = Ok (Some x) ∧ x ∈ ({[ "a"; "b" ]} : gset string))
  ∧ (MockRedis.srandmember 0 "s" {[ "s" := VSet ∅ ]}).1 = Raise ValueError.
Proof.
  split; [|split].
  - apply (srandmember_later_index 1 "s" {[ "a"; "b" ]}); [done|].
    rewrite size_union by set_solver. rewrite !size_singleton. lia.
  - exists "a". split; [reflexivity | set_solver].
  - by rewrite srandmember_empty_set.
Qed.

(** ** Ranges of lists *)

(** With bounds that do not count from the end, [l[start:stop + 1]] holds
    at position [i] the element of [l] at [start + i], up to and including
    the one at [stop]. *)
Lemma slice_inclusive {A} (l : list A) (start stop i : nat) :
  Py.slice l (Z.of_nat start) (Z.of_nat stop + 1) !! i =
    if decide (start + i ≤ stop) then l !! (start + i) else None.
Proof.
  unfold Py.slice, Py.clip.
  rewrite !(proj2 (Z.ltb_ge _ _)) by lia.
  case_decide as Hle.
  - destruct (decide (start + i < length l)) as [Hlt|Hge].
    + rewrite lookup_take_lt by lia. rewrite lookup_drop. f_equal. lia.
    + rewrite (lookup_ge_None_2 l (start + i)) by lia.
      apply lookup_ge_None_2. rewrite length_take, length_drop. lia.
  - apply lookup_take_ge. lia.
Qed.

Lemma lrange_list key start stop l (r : store) :
  r !! key = Some (VList l) →
  MockRedis.lrange key start stop r
  = (Ok (Some (VList (Py.slice l start (stop + 1)))), r).
Proof. intros Hk. unfold MockRedis.lrange. by step. Qed.

(** With [stop = -1] the upper bound of the slice is [0]: the range is
    empty whatever the list holds. *)
Lemma lrange_stop_minus_one key start l (r : store) :
  r !! key = Some (VList l) → (0 ≤ start)%Z →
  MockRedis.lrange key start (-1) r = (Ok (Some (VList [])), r).
Proof.
  intros Hk Hs. rewrite (lrange_list key start (-1) l) by done.
  do 3 f_equal. unfold Py.slice, Py.clip.
  rewrite !(proj2 (Z.ltb_ge _ _)) by lia.
  replace (Z.to_nat (_ - _)) with 0 by lia. done.
Qed.

(** [rpush] appends the values, in the order given, to the end of the
    list at the key, and makes the list when the key is absent; with
    bounds that are positions, [lrange] on a key holding a list returns
    the elements from position [start] through position [stop], the latter
    included. *)
Lemma rpush_appends_lrange_positions :
  (∀ (key : string) (args : list string) (r : store), r !! key = None →
     MockRedis.rpush key args r = (Ok (), <[key := VList args]> r))
  ∧ (∀ (key : string) (args l : list string) (r : store),
     r !! key = Some (VList l) →
     MockRedis.rpush key args r = (Ok (), <[key := VList (l ++ args)]> r))
  ∧ (∀ (key : string) (l : list string) (start stop : nat) (r : store),
     r !! key = Some (VList l) →
     ∃ s, MockRedis.lrange key (Z.of_nat start) (Z.of_nat stop) r
          = (Ok (Some (VList s)), r)
        ∧ ∀ i : nat, s !! i =
            if decide (start + i ≤ stop) then l !! (start + i) else None)
  ∧ (∀ (key a b c : string) (r : store), r !! key = None →
     (MockRedis.lrange key 0 2 (MockRedis.rpush key [a; b; c] r).2).1
     = Ok (Some (VList [a; b; c]))).
Proof.
  split; [|split; [|split]].
  - intros. by apply rpush_absent.
  - intros. by apply rpush_list.
  - intros key l start stop r Hk. eexists. split.
    + by apply lrange_list.
    + intros i. apply slice_inclusive.
  - intros key a b c r Hk. rewrite rpush_absent by done. cbn [snd].
    by rewrite (lrange_list key 0 2 [a; b; c]) by apply lookup_insert_eq.
Qed.

(** C7, where the code departs from it: [rpush] appends in order and
    [lrange] from 0 to 2 returns the three values pushed, but [lrange] from
    0 to -1, the index of the last element, returns the empty list, not
    the list through its last element: the end of the slice, [stop + 1],
    is then 0.  Through index -2 the range is as claimed, and so it is
    from index -3. *)
Theorem lrange_to_last_index_is_empty :
  MockRedis.rpush "k" ["a"; "b"; "c"] ∅ = (Ok (), {[ "k" := VList ["a"; "b"; "c"] ]})
  ∧ MockRedis.lrange "k" 0 2 {[ "k" := VList ["a"; "b"; "c"] ]}
    = (Ok (Some (VList ["a"; "b"; "c"])), {[ "k" := VList ["a"; "b"; "c"] ]})
  ∧ MockRedis.lrange "k" 0 (-1) {[ "k" := VList ["a"; "b"; "c"] ]}
    = (Ok (Some (VList [])), {[ "k" := VList ["a"; "b"; "c"] ]})
  ∧ MockRedis.lrange "k" 0 (-2) {[ "k" := VList ["a"; "b"; "c"] ]}
    = (Ok (Some (VList ["a"; "b"])), {[ "k" := VList ["a"; "b"; "c"] ]})
  ∧ MockRedis.lrange "k" (-3) 2 {[ "k" := VList ["a"; "b"; "c"] ]}
    = (Ok (Some (VList ["a"; "b"; "c"])), {[ "k" := VList ["a"; "b"; "c"] ]}).
Proof.
  split_and!.
  - by rewrite rpush_absent.
  - by rewrite (lrange_list "k" 0 2 ["a"; "b"; "c"]).
  - by rewrite (lrange_stop_minus_one "k" 0 ["a"; "b"; "c"]).
  - by rewrite (lrange_list "k" 0 (-2) ["a"; "b"; "c"]).
  - by rewrite (lrange_list "k" (-3) 2 ["a"; "b"; "c"]).
Qed.

(** ** The store is an attribute of the class *)





(** ** Sorted sets *)

(** *** What [zadd] stores *)

(** Writing the items of a dict one by one into another dict. *)
Lemma foldl_insert_items (items : list (string * atom)) : ∀ d : gmap string atom,
  NoDup items.*1 →
  foldl (λ acc pair, <[pair.1 := pair.2]> acc) d items = list_to_map items ∪ d.
Proof.
  induction items as [|[k a] items IH]; intros d Hnd; cbn [foldl].
  - cbn. by rewrite (left_id_L ∅ (∪)).
  - cbn [fmap list_fmap] in Hnd. apply NoDup_cons in Hnd as [Hk Hnd].
    rewrite IH by done. cbn [fst snd]. rewrite list_to_map_cons.
    rewrite <- insert_union_l.
    by rewrite insert_union_r by by apply not_elem_of_list_to_map_1.
Qed.

Lemma foldl_insert_map_to_list (m d : gmap string atom) :
  foldl (λ acc pair, <[pair.1 := pair.2]> acc) d (map_to_list m) = m ∪ d.
Proof.
  rewrite foldl_insert_items by apply NoDup_fst_map_to_list.
  by rewrite list_to_map_to_list.
Qed.

(** The writing loop of [zadd] and [hmset] on a key that holds a dict. *)
Lemma setitem_loop key (items : list (string * atom)) : ∀ d (r : store),
  r !! key = Some (VDict d) →
  MockRedis.for_each items
    (λ '(k, a), MockRedis.mutate key (λ v, Py.setitem v k a)) r
  = (Ok (), <[key := VDict (foldl (λ acc pair, <[pair.1 := pair.2]> acc) d items)]> r).
Proof.
  induction items as [|[k a] items IH]; intros d r Hk; cbn [MockRedis.for_each foldl].
  - by rewrite insert_id.
  - unfold mbind, M_bind.
    rewrite (mutate_Some key _ (VDict d) (VDict (<[k := a]> d))) by done.
    rewrite (IH (<[k := a]> d)) by apply lookup_insert_eq.
    by rewrite insert_insert_eq.
Qed.

(** The same loop on a missing key: the first write creates the dict;
    with nothing to write the key stays missing. *)
Lemma setitem_loop_absent key (items : list (string * atom)) (r : store) :
  r !! key = None → items ≠ [] →
  MockRedis.for_each items
    (λ '(k, a), MockRedis.mutate key (λ v, Py.setitem v k a)) r
  = (Ok (), <[key := VDict (foldl (λ acc pair, <[pair.1 := pair.2]> acc) ∅ items)]> r).
Proof.
  intros Hk Hne. destruct items as [|[k a] items]; [done|].
  cbn [MockRedis.for_each foldl]. unfold mbind, M_bind.
  rewrite (mutate_None key _ (VDict (<[k := a]> ∅))) by done.
  rewrite (setitem_loop key items (<[k := a]> ∅)) by apply lookup_insert_eq.
  by rewrite insert_insert_eq.
Qed.


Lemma zadd_pairs_dict name (pairs d : gmap string atom) (r : store) :
  r !! name = Some (VDict d) →
  MockRedis.zadd name None None pairs r
  = (Ok (), <[name := VDict (pairs ∪ d)]> r).
Proof.
  intros Hk. unfold MockRedis.zadd. step.
  rewrite foldl_insert_map_to_list, (right_id_L ∅ (∪)).
  rewrite (setitem_loop name _ d) by done.
  by rewrite foldl_insert_map_to_list.
Qed.


Lemma zcard_absent name (r : store) :
  r !! name = None →
  MockRedis.zcard name r = (Ok 0%Z, <[name := VDict ∅]> r).
Proof. intros Hk. unfold MockRedis.zcard. by step. Qed.

Lemma zrevrange_dict name start num d (r : store) :
  r !! name = Some (VDict d) →
  MockRedis.zrevrange name start num false r
  = (Ok (Py.slice (Py.sorted_desc (map_to_list d)) start (start + num)).*1, r).
Proof. intros Hk. unfold MockRedis.zrevrange. by step. Qed.

Lemma zrevrange_absent name start num (r : store) :
  r !! name = None →
  MockRedis.zrevrange name start num false r = (Ok [], <[name := VDict ∅]> r).
Proof.
  intros Hk. unfold MockRedis.zrevrange. step. cbn [Py.iteritems].
  rewrite map_to_list_empty. unfold Py.slice. cbn [Py.sorted_desc foldr].
  by rewrite drop_nil, take_nil.
Qed.

(** *** [sorted] with [reverse=True] *)

Lemma insert_desc_perm x l : Py.insert_desc x l ≡ₚ x :: l.
Proof.
  induction l as [|y l IH]; cbn; [done|].
  destruct (Py.atom_ltb x.2 y.2); [|done].
  rewrite IH. apply Permutation_swap.
Qed.

Lemma sorted_desc_perm l : Py.sorted_desc l ≡ₚ l.
Proof.
  induction l as [|x l IH]; cbn; [done|].
  fold (Py.sorted_desc l). by rewrite insert_desc_perm, IH.
Qed.

Lemma score_ge_trans x y z : score_ge x y → score_ge y z → score_ge x z.
Proof.
  intros (zx & zy & Hx & Hy & Hxy) (zy' & zz & Hy' & Hz & Hyz).
  exists zx, zz. repeat split; try done.
  rewrite Hy in Hy'. injection Hy' as <-. lia.
Qed.

Lemma insert_desc_sorted x l :
  numeric x → Forall numeric l →
  StronglySorted score_ge l → StronglySorted score_ge (Py.insert_desc x l).
Proof.
  intros [zx Hx] Hnum Hsorted.
  induction Hsorted as [|y l Hsorted IH Hy]; cbn.
  - by repeat constructor.
  - apply Forall_cons in Hnum as [[zy Hzy] Hnum].
    rewrite Hx, Hzy. cbn [Py.atom_ltb].
    destruct (Z.ltb_spec zx zy) as [Hlt|Hge].
    + constructor; [by apply IH|].
      rewrite insert_desc_perm. constructor; [|done].
      exists zy, zx. repeat split; try done. lia.
    + assert (score_ge x y) as Hxy by (exists zx, zy; done).
      constructor; [by constructor|].
      constructor; [done|].
      eapply Forall_impl; [exact Hy|]. intros z Hz. by eapply score_ge_trans.
Qed.

Lemma sorted_desc_sorted l :
  Forall numeric l → StronglySorted score_ge (Py.sorted_desc l).
Proof.
  induction 1 as [|x l Hx Hl IH]; cbn; [constructor|].
  fold (Py.sorted_desc l). apply insert_desc_sorted; [done| |done].
  by rewrite sorted_desc_perm.
Qed.

Lemma StronglySorted_lookup_lt {A} (R : relation A) l i j x y :
  StronglySorted R l → i < j → l !! i = Some x → l !! j = Some y → R x y.
Proof.
  intros Hs. revert i j. induction Hs as [|z l Hs IH Hz]; intros i j Hij Hi Hj.
  - done.
  - destruct j as [|j]; [lia|]. destruct i as [|i]; cbn in Hi, Hj.
    + injection Hi as <-. rewrite Forall_forall in Hz.
      by eapply Hz, list_elem_of_lookup_2.
    + eapply (IH i j); [lia|done..].
Qed.

(** *** Slices that start at a position and take a count *)

Lemma slice_all {A} (l : list A) (N : Z) :
  (Z.of_nat (length l) ≤ N)%Z → Py.slice l 0 (0 + N) = l.
Proof.
  intros HN. unfold Py.slice, Py.clip.
  rewrite !(proj2 (Z.ltb_ge _ _)) by lia.
  rewrite (Z.min_l 0), (Z.min_r (0 + N)) by lia.
  rewrite Z.sub_0_r, Nat2Z.id. change (Z.to_nat 0) with 0.
  by rewrite drop_0, take_ge.
Qed.

Lemma slice_count {A} (l : list A) (start num : nat) :
  Py.slice l (Z.of_nat start) (Z.of_nat start + Z.of_nat num)
  = take num (drop start l).
Proof.
  unfold Py.slice, Py.clip.
  rewrite !(proj2 (Z.ltb_ge _ _)) by lia.
  destruct (decide (length l ≤ start)) as [Hge|Hlt].
  - rewrite !drop_ge by lia. by rewrite !take_nil.
  - replace (Z.to_nat (Z.of_nat start `min` _)) with start by lia.
    destruct (decide (start + num ≤ length l)) as [Hin|Hout].
    + f_equal. lia.
    + rewrite !take_ge; [done|rewrite length_drop; lia..].
Qed.

(** *** Members by descending score *)

(** The members of a dict of numeric scores, as [sorted] orders them. *)
Lemma sorted_members (pairs : gmap string Z) :
  let members := (Py.sorted_desc (map_to_list (Num <$> pairs))).*1 in
  NoDup members
  ∧ (∀ a, a ∈ members ↔ is_Some (pairs !! a))
  ∧ length members = size pairs
  ∧ (∀ i j a b sa sb, i < j →
       members !! i = Some a → members !! j = Some b →
       pairs !! a = Some sa → pairs !! b = Some sb → (sb ≤ sa)%Z).
Proof.
  intros members. subst members.
  set (items := map_to_list (Num <$> pairs)).
  assert (Hperm : Py.sorted_desc items ≡ₚ items) by apply sorted_desc_perm.
  assert (Hitem : ∀ k a, (k, a) ∈ Py.sorted_desc items ↔
                         ∃ z, a = Num z ∧ pairs !! k = Some z).
  { intros k a. rewrite Hperm. unfold items.
    rewrite elem_of_map_to_list, lookup_fmap_Some.
    split; intros (z & Hz & Hk); exists z; by split. }
  assert (Hnum : Forall numeric items).
  { apply Forall_forall. intros [k a] Hin. rewrite <- Hperm in Hin.
    apply Hitem in Hin as (z & -> & _). by exists z. }
  split; [|split; [|split]].
  - rewrite Hperm. apply NoDup_fst_map_to_list.
  - intros a. rewrite list_elem_of_fmap. split.
    + intros ([k x] & -> & Hin). apply Hitem in Hin as (z & _ & Hz). by exists z.
    + intros [z Hz]. exists (a, Num z). split; [done|]. apply Hitem. eauto.
  - rewrite length_fmap, Hperm. unfold items.
    by rewrite length_map_to_list, map_size_fmap.
  - intros i j a b sa sb Hij Hi Hj Ha Hb.
    apply list_lookup_fmap_Some in Hi as ([k x] & -> & Hi).
    apply list_lookup_fmap_Some in Hj as ([k' y] & -> & Hj).
    cbn [fst] in Ha, Hb.
    pose proof (StronglySorted_lookup_lt score_ge _ i j _ _
      (sorted_desc_sorted items Hnum) Hij Hi Hj) as (zx & zy & Hx & Hy & Hle).
    cbn [snd] in Hx, Hy. subst x y.
    apply list_elem_of_lookup_2, Hitem in Hi as (z & [= ->] & Hz).
    apply list_elem_of_lookup_2, Hitem in Hj as (z' & [= ->] & Hz').
    congruence.
Qed.



Lemma zadd_call_keyword_pairs name (kwargs : gmap string atom) :
  keyword_pairs kwargs →
  MockRedis.zadd_call name kwargs = Some (MockRedis.zadd name None None kwargs).
Proof.
  intros (Hself & Hname & Hvalue & Hscore). unfold MockRedis.zadd_call.
  rewrite bool_decide_eq_false_2
    by (rewrite Hself, Hname; intros [[? [=]]|[? [=]]]).
  rewrite Hvalue, Hscore.
  rewrite (delete_id kwargs "score") by done. by rewrite delete_id.
Qed.






(** ** Failed commands *)

(** The loops over [mutate] can only fail on their first item, before
    anything is written. *)
Lemma setitem_loop_failure key (items : list (string * atom)) (r : store) e :
  (MockRedis.for_each items
     (λ '(k, a), MockRedis.mutate key (λ v, Py.setitem v k a)) r).1 = Raise e →
  (MockRedis.for_each items
     (λ '(k, a), MockRedis.mutate key (λ v, Py.setitem v k a)) r).2 = r.
Proof.
  destruct (r !! key) as [v|] eqn:Hk.
  - destruct (decide (type_of v = Tdict)) as [Hd|Hd].
    + destruct v; try done. by rewrite (setitem_loop key items d).
    + destruct items as [|[k a] items]; [done|].
      cbn [MockRedis.for_each]. unfold mbind, M_bind.
      rewrite (mutate_Some_raise key _ v TypeError); [done..|].
      by destruct v.
  - destruct items as [|[k a] items]; [done|].
    by rewrite setitem_loop_absent.
Qed.

Lemma append_loop_failure key (args : list string) (r : store) e :
  is_Some (r !! key) →
  (MockRedis.for_each args
     (λ arg, MockRedis.mutate key (λ v, Py.append v arg)) r).1 = Raise e →
  (MockRedis.for_each args
     (λ arg, MockRedis.mutate key (λ v, Py.append v arg)) r).2 = r.
Proof.
  intros [v Hk].
  destruct (decide (type_of v = Tlist)) as [Hd|Hd].
  - destruct v; try done. by rewrite (rpush_loop key args l).
  - destruct args as [|arg args]; [done|].
    cbn [MockRedis.for_each]. unfold mbind, M_bind.
    rewrite (mutate_Some_raise key _ v AttributeError); [done..|].
    by destruct v.
Qed.

(** Take the command apart along the outcomes of its steps. *)
Ltac split_outcomes :=
  repeat (step;
          match goal with
          | |- context [match ?x with _ => _ end] => destruct x eqn:?
          | |- context [if ?x then _ else _] => destruct x eqn:?
          end);
  step; cbn [fst snd outcome].


Ltac failure_frame :=
  split_outcomes; try discriminate;
  first [ by left
        | right; eexists; split; [reflexivity|]; by split ].

Lemma outcome_raise {A} (x : result A * store) e :
  (outcome x).1 = Some e → x.1 = Raise e ∧ (outcome x).2 = x.2.
Proof. destruct x as [[a|e'] r']; cbn; [done|]. by intros [= ->]. Qed.

(** A command that raises leaves the store as it found it, unless it
    looked its key up with [self.redis[key]] while the key was missing:
    then the key is left bound to the empty dict made by the lookup. *)
Lemma failed_run_store (c : command) (r : store) (e : exn) :
  (run c r).1 = Some e →
  (run c r).2 = r
  ∨ ∃ key, command_key c = Some key ∧ r !! key = None
           ∧ (run c r).2 = <[key := VDict ∅]> r.
Proof.
  destruct c; cbn [run command_key];
    intros Hraise; apply outcome_raise in Hraise as [Hraise ->]; revert Hraise.
  - unfold MockRedis.type.
    destruct (r !! key) as [v|] eqn:Hk; failure_frame.
  - unfold MockRedis.get.
    destruct (r !! key) as [v|] eqn:Hk; failure_frame.
  - destruct (r !! key) as [v|] eqn:Hk.
    + by rewrite (delete_present key v).
    + by rewrite delete_absent.
  - unfold MockRedis.exists_, MockRedis.redis_contains. done.
  - unfold MockRedis.hget.
    destruct (r !! hashkey) as [v|] eqn:Hk; failure_frame.
  - unfold MockRedis.hgetall.
    destruct (r !! hashkey) as [v|] eqn:Hk; failure_frame.
  - unfold MockRedis.hlen.
    destruct (r !! hashkey) as [v|] eqn:Hk; failure_frame.
  - unfold MockRedis.hmset. intros Hraise. left.
    by eapply setitem_loop_failure.
  - unfold MockRedis.hset, MockRedis.mutate.
    destruct (r !! hashkey) as [v|] eqn:Hk; failure_frame.
  - unfold MockRedis.lrange.
    destruct (r !! key) as [v|] eqn:Hk; failure_frame.
  - unfold MockRedis.rpush.
    destruct (r !! key) as [v|] eqn:Hk; step; cbn [negb]; unfold ret.
    + intros Hraise. left. by eapply append_loop_failure.
    + by rewrite (rpush_loop key args []) by apply lookup_insert_eq.
  - unfold MockRedis.rpop.
    destruct (r !! key) as [v|] eqn:Hk; [|failure_frame].
    step. destruct (Py.pop v) as [[x v']|e'] eqn:Hpop; step; [|intros _; by left].
    destruct (Py.eq_empty_list v').
    + by rewrite (delete_present key v') by apply lookup_insert_eq.
    + done.
  - unfold MockRedis.sadd, MockRedis.mutate.
    destruct (r !! key) as [v|] eqn:Hk; failure_frame.
  - unfold MockRedis.srem, MockRedis.mutate.
    destruct (r !! key) as [v|] eqn:Hk; failure_frame.
  - unfold MockRedis.srandmember.
    destruct (r !! key) as [v|] eqn:Hk; failure_frame.
  - unfold MockRedis.smembers.
    destruct (r !! key) as [v|] eqn:Hk; failure_frame.
  - done.
  - unfold MockRedis.zadd.
    repeat match goal with o : option _ |- _ => destruct o end; step;
      try (intros _; by left); intros Hraise; left;
      by eapply setitem_loop_failure.
  - unfold MockRedis.zscore.
    destruct (r !! name) as [v|] eqn:Hk; failure_frame.
  - unfold MockRedis.zrevrange.
    destruct withscores; [intros _; by left|].
    destruct (r !! name) as [v|] eqn:Hk; failure_frame.
  - unfold MockRedis.zcard.
    destruct (r !! name) as [v|] eqn:Hk; failure_frame.
Qed.

(** C1, as the code has it: a command that raises leaves the store as it
    was, except that a command which read [self.redis[key]] for a missing
    key leaves that key bound to an empty hash.  For [zscore]: when the
    member is missing from an existing sorted set the store is unchanged;
    when the name is missing, [exists] is true for the name afterwards and
    answers as before for every other key. *)
Theorem failed_command_store :
  (∀ (c : command) (r : store) (e : exn), (run c r).1 = Some e →
     (run c r).2 = r
     ∨ ∃ key, command_key c = Some key ∧ r !! key = None
              ∧ (run c r).2 = <[key := VDict ∅]> r)
  ∧ (∀ (name member : string) (d : gmap string atom) (r : store),
     r !! name = Some (VDict d) → d !! member = None →
     MockRedis.zscore name member r = (Raise KeyError, r))
  ∧ (∀ (name member : string) (r : store), r !! name = None →
     MockRedis.zscore name member r = (Raise KeyError, <[name := VDict ∅]> r)
     ∧ (MockRedis.exists_ name (<[name := VDict ∅]> r)).1 = Ok true
     ∧ ∀ k, k ≠ name →
         (MockRedis.exists_ k (<[name := VDict ∅]> r)).1
         = (MockRedis.exists_ k r).1).
Proof.
  split; [exact failed_run_store|]. split.
  - intros name member d r Hn Hm. unfold MockRedis.zscore. step.
    cbn. by rewrite Hm.
  - intros name member r Hn. split; [|split].
    + unfold MockRedis.zscore. by step.
    + unfold MockRedis.exists_. by rewrite redis_contains_insert.
    + intros k Hne. unfold MockRedis.exists_, MockRedis.redis_contains.
      cbn [fst]. by rewrite lookup_insert_ne.
Qed.

Lemma failed_command_store_witness :
  ((run (Czscore "z" "m") ∅).2 = ∅
   ∨ ∃ key, command_key (Czscore "z" "m") = Some key ∧ (∅ : store) !! key = None
            ∧ (run (Czscore "z" "m") ∅).2 = <[key := VDict ∅]> ∅)
  ∧ MockRedis.zscore "z" "m" {[ "z" := VDict {[ "a" := Num 1 ]} ]}
    = (Raise KeyError, {[ "z" := VDict {[ "a" := Num 1 ]} ]})
  ∧ MockRedis.zscore "z" "m" ∅ = (Raise KeyError, <["z" := VDict ∅]> ∅).
Proof.
  destruct failed_command_store as (Hany & Hmember & Hname).
  split; [apply (Hany (Czscore "z" "m") ∅ KeyError); reflexivity|].
  split; [apply (Hmember "z" "m" {[ "a" := Num 1 ]}); reflexivity|].
  apply (Hname "z" "m" ∅). reflexivity.
Defined.

(** C1 as stated fails for [zscore] on a missing name: the call raises,
    and the name, absent before, exists afterwards. *)
Lemma zscore_absent_name_counterexample :
  (MockRedis.zscore "z" "m" ∅).1 = Raise KeyError
  ∧ (MockRedis.zscore "z" "m" ∅).2 ≠ ∅
  ∧ (MockRedis.exists_ "z" ∅).1 = Ok false
  ∧ (MockRedis.exists_ "z" (MockRedis.zscore "z" "m" ∅).2).1 = Ok true.
Proof.
  repeat split; solve [reflexivity | discriminate].
Qed.

(** ** Keys no command was called on *)

Lemma mutate_other key op (r : store) k :
  k ≠ key → (MockRedis.mutate key op r).2 !! k = r !! k.
Proof.
  intros Hne. unfold MockRedis.mutate.
  destruct (r !! key) as [v|] eqn:Hk; step;
    destruct (op _); step; cbn [snd];
    by rewrite ?lookup_insert_ne by done.
Qed.

Lemma for_each_other {A} (body : A → M unit) items k :
  (∀ x (r : store), (body x r).2 !! k = r !! k) →
  ∀ r : store, (MockRedis.for_each items body r).2 !! k = r !! k.
Proof.
  intros Hbody. induction items as [|x items IH]; intros r; [done|].
  cbn [MockRedis.for_each]. unfold mbind, M_bind.
  specialize (Hbody x r). destruct (body x r) as [[[]|e] r']; cbn [snd] in *.
  - by rewrite IH.
  - done.
Qed.

Ltac other_key :=
  split_outcomes;
  rewrite ?lookup_insert_ne, ?lookup_delete_ne, ?lookup_empty by done; done.

Lemma outcome_snd {A} (x : result A * store) : (outcome x).2 = x.2.
Proof. by destruct x as [[?|?] ?]. Qed.

(** A key that is absent stays absent under every command that is called
    on another key, or on none. *)
Lemma run_absent_other (c : command) (r : store) (k : string) :
  r !! k = None → command_key c ≠ Some k → (run c r).2 !! k = None.
Proof.
  intros Habs Hc.
  destruct c; cbn [run command_key] in *; rewrite outcome_snd;
    match type of Hc with Some ?key ≠ _ =>
      assert (k ≠ key) as Hne by congruence | _ => idtac end.
  - unfold MockRedis.type. destruct (r !! key) eqn:Hk; other_key.
  - unfold MockRedis.get. destruct (r !! key) eqn:Hk; other_key.
  - unfold MockRedis.delete, MockRedis.redis_delitem.
    destruct (r !! key) eqn:Hk; step; rewrite ?Hk; cbn [snd];
      by rewrite ?lookup_delete_ne.
  - done.
  - unfold MockRedis.hget. destruct (r !! hashkey) eqn:Hk; other_key.
  - unfold MockRedis.hgetall. destruct (r !! hashkey) eqn:Hk; other_key.
  - unfold MockRedis.hlen. destruct (r !! hashkey) eqn:Hk; other_key.
  - unfold MockRedis.hmset. rewrite for_each_other; [done|].
    intros [? ?] ?. by apply mutate_other.
  - unfold MockRedis.hset. by rewrite mutate_other.
  - unfold MockRedis.lrange. destruct (r !! key) eqn:Hk; other_key.
  - unfold MockRedis.rpush.
    destruct (r !! key) eqn:Hk; step; cbn [negb]; unfold ret;
      (rewrite for_each_other; [by rewrite ?lookup_insert_ne|]);
      intros arg r'; by apply mutate_other.
  - unfold MockRedis.rpop.
    destruct (r !! key) as [v|] eqn:Hk; [|other_key].
    step. destruct (Py.pop v) as [[x v']|e'] eqn:Hpop; step; [|done].
    destruct (Py.eq_empty_list v').
    + rewrite (delete_present key v') by apply lookup_insert_eq. cbn [snd].
      by rewrite lookup_delete_ne, lookup_insert_ne.
    + cbn [snd]. by rewrite lookup_insert_ne.
  - unfold MockRedis.sadd, MockRedis.mutate.
    destruct (r !! key) eqn:Hk; other_key.
  - unfold MockRedis.srem. by rewrite mutate_other.
  - unfold MockRedis.srandmember. destruct (r !! key) eqn:Hk; other_key.
  - unfold MockRedis.smembers. destruct (r !! key) eqn:Hk; other_key.
  - done.
  - unfold MockRedis.zadd.
    repeat match goal with o : option _ |- _ => destruct o end; step; try done;
      (rewrite for_each_other; [done|]);
      intros [? ?] ?; by apply mutate_other.
  - unfold MockRedis.zscore. destruct (r !! name) eqn:Hk; other_key.
  - unfold MockRedis.zrevrange. destruct withscores; [done|].
    destruct (r !! name) eqn:Hk; other_key.
  - unfold MockRedis.zcard. destruct (r !! name) eqn:Hk; other_key.
Qed.

Lemma run_all_absent_other (cs : list command) (k : string) : ∀ r : store,
  r !! k = None → Forall (λ c, command_key c ≠ Some k) cs →
  run_all cs r !! k = None.
Proof.
  induction cs as [|c cs IH]; intros r Habs Hcs; [done|].
  apply Forall_cons in Hcs as [Hc Hcs]. cbn [run_all foldl].
  apply IH; [|done]. by apply run_absent_other.
Qed.

(** A key that is absent stays absent under the commands that never make
    an entry. *)
Lemma run_absent_never_creates (c : command) (r : store) (k : string) :
  r !! k = None → never_creates c = true → (run c r).2 !! k = None.
Proof.
  intros Habs Hc.
  destruct (decide (command_key c = Some k)) as [Hown|Hother];
    [|by apply run_absent_other].
  destruct c; cbn [run command_key never_creates] in *; rewrite outcome_snd;
    try discriminate; injection Hown as ->.
  - unfold MockRedis.get. by step.
  - by rewrite delete_absent.
  - done.
  - unfold MockRedis.rpop. by step.
  - by subst withscores.
Qed.

Lemma run_all_absent (cs : list command) (k : string) : ∀ r : store,
  r !! k = None →
  Forall (λ c, command_key c ≠ Some k ∨ never_creates c = true) cs →
  run_all cs r !! k = None.
Proof.
  induction cs as [|c cs IH]; intros r Habs Hcs; [done|].
  apply Forall_cons in Hcs as [Hc Hcs]. cbn [run_all foldl].
  apply IH; [|done]. destruct Hc as [Hc|Hc].
  - by apply run_absent_other.
  - by apply run_absent_never_creates.
Qed.

(** A command that looks a missing key up leaves an empty hash there. *)
Lemma run_looks_up (c : command) (key : string) (r : store) :
  command_key c = Some key → looks_up c = true → r !! key = None →
  (run c r).2 = <[key := VDict ∅]> r.
Proof.
  intros Hc Hl Hk.
  destruct c; cbn [run command_key looks_up] in *; rewrite outcome_snd;
    try discriminate; injection Hc as ->.
  - unfold MockRedis.type. by step.
  - unfold MockRedis.hget. step. cbn [Py.contains].
    by rewrite bool_decide_eq_false_2 by (rewrite lookup_empty; by intros [? ?]).
  - unfold MockRedis.hgetall. by step.
  - unfold MockRedis.hlen. by step.
  - by rewrite srem_absent.
  - unfold MockRedis.srandmember. by step.
  - unfold MockRedis.smembers. by step.
  - unfold MockRedis.zscore. by step.
  - destruct withscores; [discriminate|]. by rewrite zrevrange_absent.
  - by rewrite zcard_absent.
Qed.

(** C5, as the code has it: for a key that has no entry in the store
    [get] returns the empty string, raising nothing and leaving the store
    as it is, and [exists] answers false.  A key has no entry, in
    particular, in a new store after commands none of which was called on
    it, apart from those that never make an entry ([get], [exists],
    [delete], [rpop]).  A key that was never written but was read by a
    command that looks it up ([type], [hget], [hgetall], [hlen],
    [smembers], [zcard], [zscore], [zrevrange], [srem], [srandmember])
    holds an empty hash, and after [lrange] an empty list: [get] returns
    that object and [exists] answers true. *)
Theorem get_exists_never_written (key : string) :
  (∀ r : store, r !! key = None →
     MockRedis.get key r = (Ok (VStr ""), r)
     ∧ MockRedis.exists_ key r = (Ok false, r))
  ∧ (∀ cs : list command,
     Forall (λ c, command_key c ≠ Some key ∨ never_creates c = true) cs →
     MockRedis.get key (run_all cs ∅) = (Ok (VStr ""), run_all cs ∅)
     ∧ MockRedis.exists_ key (run_all cs ∅) = (Ok false, run_all cs ∅))
  ∧ (∀ (c : command) (r : store),
     command_key c = Some key → looks_up c = true → r !! key = None →
     MockRedis.get key (run c r).2 = (Ok (VDict ∅), (run c r).2)
     ∧ MockRedis.exists_ key (run c r).2 = (Ok true, (run c r).2))
  ∧ (∀ (start stop : Z) (r : store), r !! key = None →
     MockRedis.get key (run (Clrange key start stop) r).2
     = (Ok (VList []), (run (Clrange key start stop) r).2)
     ∧ MockRedis.exists_ key (run (Clrange key start stop) r).2
       = (Ok true, (run (Clrange key start stop) r).2)).
Proof.
  assert (Habsent : ∀ r : store, r !! key = None →
     MockRedis.get key r = (Ok (VStr ""), r)
     ∧ MockRedis.exists_ key r = (Ok false, r)).
  { intros r Habs. split.
    - unfold MockRedis.get. by step.
    - by apply redis_contains_None. }
  assert (Hpresent : ∀ v (r : store),
     MockRedis.get key (<[key := v]> r) = (Ok v, <[key := v]> r)
     ∧ MockRedis.exists_ key (<[key := v]> r) = (Ok true, <[key := v]> r)).
  { intros v r. split.
    - unfold MockRedis.get. step. cbn [negb]. by step.
    - apply redis_contains_insert. }
  split; [exact Habsent|]. split; [|split].
  - intros cs Hcs. apply Habsent, run_all_absent; [apply lookup_empty|done].
  - intros c r Hc Hl Hk. rewrite (run_looks_up c key r) by done. apply Hpresent.
  - intros start stop r Hk. cbn [run]. rewrite outcome_snd.
    assert (MockRedis.lrange key start stop r = (Ok None, <[key := VList []]> r))
      as -> by (unfold MockRedis.lrange; by step).
    apply Hpresent.
Qed.

Lemma get_exists_never_written_witness :
  (MockRedis.get "k" {[ "q" := VList ["1"] ]}
     = (Ok (VStr ""), {[ "q" := VList ["1"] ]})
   ∧ MockRedis.exists_ "k" {[ "q" := VList ["1"] ]}
     = (Ok false, {[ "q" := VList ["1"] ]}))
  ∧ (MockRedis.get "k" (run_all [Crpush "q" ["1"]; Crpop "k"; Czscore "z" "m"] ∅)
     = (Ok (VStr ""), run_all [Crpush "q" ["1"]; Crpop "k"; Czscore "z" "m"] ∅)
   ∧ MockRedis.exists_ "k" (run_all [Crpush "q" ["1"]; Crpop "k"; Czscore "z" "m"] ∅)
     = (Ok false, run_all [Crpush "q" ["1"]; Crpop "k"; Czscore "z" "m"] ∅))
  ∧ (MockRedis.get "k" (run (Czcard "k") ∅).2
     = (Ok (VDict ∅), (run (Czcard "k") ∅).2)
   ∧ MockRedis.exists_ "k" (run (Czcard "k") ∅).2
     = (Ok true, (run (Czcard "k") ∅).2))
  ∧ (MockRedis.get "k" (run (Clrange "k" 0 1) ∅).2
     = (Ok (VList []), (run (Clrange "k" 0 1) ∅).2)
   ∧ MockRedis.exists_ "k" (run (Clrange "k" 0 1) ∅).2
     = (Ok true, (run (Clrange "k" 0 1) ∅).2)).
Proof.
  destruct (get_exists_never_written "k") as (Hentry & Hrun & Hread & Hrange).
  split_and!.
  - apply (Hentry {[ "q" := VList ["1"] ]}). reflexivity.
  - apply (Hentry {[ "q" := VList ["1"] ]}). reflexivity.
  - apply (Hrun [Crpush "q" ["1"]; Crpop "k"; Czscore "z" "m"]).
    repeat (apply Forall_cons; split;
              [first [left; discriminate | right; reflexivity]|]).
    constructor.
  - apply (Hrun [Crpush "q" ["1"]; Crpop "k"; Czscore "z" "m"]).
    repeat (apply Forall_cons; split;
              [first [left; discriminate | right; reflexivity]|]).
    constructor.
  - apply (Hread (Czcard "k") ∅); reflexivity.
  - apply (Hread (Czcard "k") ∅); reflexivity.
  - apply (Hrange 0%Z 1%Z ∅). reflexivity.
  - apply (Hrange 0%Z 1%Z ∅). reflexivity.
Defined.

(** C5 as stated fails for a key that was never written but was read with
    [hget]: the read answers with the empty string and leaves an empty
    hash at the key, so that [get] returns that hash, not the empty
    string, and [exists] is true. *)
Lemma get_after_read_counterexample :
  (∅ : store) !! "k" = None
  ∧ (MockRedis.hget "k" "f" ∅).1 = Ok (Str "")
  ∧ (MockRedis.get "k" (MockRedis.hget "k" "f" ∅).2).1 = Ok (VDict ∅)
  ∧ (MockRedis.get "k" (MockRedis.hget "k" "f" ∅).2).1 ≠ Ok (VStr "")
  ∧ (MockRedis.exists_ "k" (MockRedis.hget "k" "f" ∅).2).1 = Ok true.
Proof.
  split_and!; solve [reflexivity | discriminate].
Qed.

(** * Further properties of the commands *)

(** ** Hashes *)

Lemma dict_at_getitem key d (r : store) :
  dict_at key r d →
  MockRedis.redis_getitem key r = (Ok (VDict d), <[key := VDict d]> r)
  ∧ ∀ k, k ≠ key → (<[key := VDict d]> r) !! k = r !! k.
Proof.
  intros Hd. split; [|intros k Hk; by rewrite lookup_insert_ne].
  destruct Hd as [Hk|[Hk ->]].
  - rewrite (redis_getitem_Some key r (VDict d)) by done. by rewrite insert_id.
  - by rewrite redis_getitem_None.
Qed.

Lemma dict_at_insert key d d' (r : store) :
  dict_at key (<[key := VDict d]> r) d' ↔ d' = d.
Proof.
  unfold dict_at. rewrite lookup_insert_eq. split.
  - intros [[= ->]|[[=] _]]. done.
  - intros ->. by left.
Qed.

(** The writing loop keeps a dict at the key and adds the items to it. *)
Lemma setitem_loop_dict_at key (items : list (string * atom)) d (r : store) :
  dict_at key r d →
  ∃ r', MockRedis.for_each items
          (λ '(k, a), MockRedis.mutate key (λ v, Py.setitem v k a)) r = (Ok (), r')
        ∧ dict_at key r' (foldl (λ acc pair, <[pair.1 := pair.2]> acc) d items)
        ∧ ∀ k, k ≠ key → r' !! k = r !! k.
Proof.
  intros [Hk|[Hk ->]].
  - eexists. split; [by apply setitem_loop|]. split.
    + by apply dict_at_insert.
    + intros k Hne. by rewrite lookup_insert_ne.
  - destruct items as [|item items].
    + exists r. split; [done|]. split; [by right|done].
    + eexists. split; [by apply setitem_loop_absent|]. split.
      * by apply dict_at_insert.
      * intros k Hne. by rewrite lookup_insert_ne.
Qed.

Lemma hget_dict_at key field d (r : store) :
  dict_at key r d →
  (MockRedis.hget key field r).1 = Ok (default (Str "") (d !! field)).
Proof.
  intros [Hgi _]%dict_at_getitem. unfold MockRedis.hget.
  unfold mbind, M_bind. rewrite Hgi. cbn [Py.contains].
  destruct (d !! field) as [a|] eqn:Hf.
  - rewrite bool_decide_eq_true_2 by done. step. cbn. by rewrite Hf.
  - rewrite bool_decide_eq_false_2 by (by intros [? ?]). done.
Qed.

Lemma hlen_dict_at key d (r : store) :
  dict_at key r d → (MockRedis.hlen key r).1 = Ok (Z.of_nat (size d)).
Proof.
  intros [Hgi _]%dict_at_getitem. unfold MockRedis.hlen.
  unfold mbind, M_bind. by rewrite Hgi.
Qed.

Lemma hgetall_dict_at key d (r : store) :
  dict_at key r d → (MockRedis.hgetall key r).1 = Ok (VDict d).
Proof.
  intros [Hgi _]%dict_at_getitem. unfold MockRedis.hgetall. by rewrite Hgi.
Qed.

Lemma hset_dict_at key field value d (r : store) :
  dict_at key r d →
  MockRedis.hset key field value r
  = (Ok (), <[key := VDict (<[field := value]> d)]> r).
Proof.
  intros [Hk|[Hk ->]]; unfold MockRedis.hset.
  - by apply mutate_Some with (VDict d).
  - by apply mutate_None.
Qed.

Lemma hmset_dict_at key (value : gmap string atom) d (r : store) :
  dict_at key r d →
  ∃ r', MockRedis.hmset key value r = (Ok (), r')
        ∧ dict_at key r' (value ∪ d)
        ∧ ∀ k, k ≠ key → r' !! k = r !! k.
Proof.
  intros Hd. unfold MockRedis.hmset.
  destruct (setitem_loop_dict_at key (map_to_list value) d r Hd)
    as (r' & Hrun & Hd' & Hother).
  exists r'. by rewrite <- foldl_insert_map_to_list.
Qed.

(** After [hset] on a hash, or on a key the store does not hold, [hget]
    of the field returns the value set, [hget] of any other field answers
    as before, and [hlen] counts the fields with the new one. *)
Theorem hset_then_hget (key field : string) (value : atom)
    (d : gmap string atom) (r : store) :
  dict_at key r d →
  let r' := (MockRedis.hset key field value r).2 in
  (MockRedis.hset key field value r).1 = Ok ()
  ∧ (MockRedis.hget key field r').1 = Ok value
  ∧ (∀ other, other ≠ field →
       (MockRedis.hget key other r').1 = (MockRedis.hget key other r).1)
  ∧ (MockRedis.hlen key r').1
    = Ok (Z.of_nat (match d !! field with
                    | Some _ => size d
                    | None => S (size d)
                    end))
  ∧ (∀ k, k ≠ key → r' !! k = r !! k).
Proof.
  intros Hd r'. subst r'. rewrite (hset_dict_at key field value d) by done.
  cbn [fst snd].
  assert (Hd' : dict_at key (<[key := VDict (<[field := value]> d)]> r)
                  (<[field := value]> d)) by by apply dict_at_insert.
  split; [done|]. split; [|split; [|split]].
  - rewrite (hget_dict_at key field _ _ Hd'). by rewrite lookup_insert_eq.
  - intros other Hne. rewrite (hget_dict_at key other _ _ Hd').
    rewrite (hget_dict_at key other _ _ Hd). by rewrite lookup_insert_ne.
  - rewrite (hlen_dict_at key _ _ Hd'). do 2 f_equal.
    destruct (d !! field) as [a|] eqn:Hf.
    + rewrite <- (insert_delete_eq d), map_size_insert_None by apply lookup_delete_eq.
      rewrite <- (insert_delete_id d field a) at 2 by done.
      by rewrite map_size_insert_None by apply lookup_delete_eq.
    + by rewrite map_size_insert_None.
  - intros k Hne. by rewrite lookup_insert_ne.
Qed.

Lemma hset_then_hget_witness :
  let r : store := {[ "h" := VDict {[ "a" := Str "1" ]} ]} in
  let r' := (MockRedis.hset "h" "b" (Str "2") r).2 in
  (MockRedis.hset "h" "b" (Str "2") r).1 = Ok ()
  ∧ (MockRedis.hget "h" "b" r').1 = Ok (Str "2")
  ∧ (∀ other, other ≠ "b" →
       (MockRedis.hget "h" other r').1 = (MockRedis.hget "h" other r).1)
  ∧ (MockRedis.hlen "h" r').1
    = Ok (Z.of_nat (match ({[ "a" := Str "1" ]} : gmap string atom) !! "b" with
                    | Some _ => size ({[ "a" := Str "1" ]} : gmap string atom)
                    | None => S (size ({[ "a" := Str "1" ]} : gmap string atom))
                    end))
  ∧ (∀ k, k ≠ "h" → r' !! k = r !! k).
Proof.
  intros r.
  apply (hset_then_hget "h" "b" (Str "2") {[ "a" := Str "1" ]} r).
  left. reflexivity.
Defined.

(** [hmset] on a hash, or on a key the store does not hold, writes every
    pair of the mapping: afterwards [hget] returns the mapping's value for a
    field of the mapping and answers as before for any other field,
    [hgetall] returns the mapping laid over the fields held before, and
    [hlen] is the number of distinct fields. *)
Theorem hmset_then_reads (key : string) (value d : gmap string atom)
    (r : store) :
  dict_at key r d →
  let r' := (MockRedis.hmset key value r).2 in
  (MockRedis.hmset key value r).1 = Ok ()
  ∧ (∀ field a, value !! field = Some a →
       (MockRedis.hget key field r').1 = Ok a)
  ∧ (∀ field, value !! field = None →
       (MockRedis.hget key field r').1 = (MockRedis.hget key field r).1)
  ∧ (MockRedis.hgetall key r').1 = Ok (VDict (value ∪ d))
  ∧ (MockRedis.hlen key r').1 = Ok (Z.of_nat (size (dom value ∪ dom d)))
  ∧ (∀ k, k ≠ key → r' !! k = r !! k).
Proof.
  intros Hd r'. subst r'.
  destruct (hmset_dict_at key value d r Hd) as (r' & -> & Hd' & Hother).
  cbn [fst snd]. split; [done|]. split; [|split; [|split; [|split]]].
  - intros field a Hf. rewrite (hget_dict_at key field _ _ Hd').
    by rewrite (lookup_union_Some_l _ _ _ a).
  - intros field Hf. rewrite (hget_dict_at key field _ _ Hd').
    rewrite (hget_dict_at key field _ _ Hd). by rewrite lookup_union_r.
  - by apply hgetall_dict_at.
  - rewrite (hlen_dict_at key _ _ Hd'). by rewrite <- dom_union_L, size_dom.
  - done.
Qed.

Lemma hmset_then_reads_witness :
  let r : store := ∅ in
  let value : gmap string atom := {[ "a" := Str "1"; "b" := Str "2" ]} in
  let r' := (MockRedis.hmset "h" value r).2 in
  (MockRedis.hmset "h" value r).1 = Ok ()
  ∧ (∀ field a, value !! field = Some a →
       (MockRedis.hget "h" field r').1 = Ok a)
  ∧ (∀ field, value !! field = None →
       (MockRedis.hget "h" field r').1 = (MockRedis.hget "h" field r).1)
  ∧ (MockRedis.hgetall "h" r').1 = Ok (VDict (value ∪ ∅))
  ∧ (MockRedis.hlen "h" r').1 = Ok (Z.of_nat (size (dom value ∪ dom (∅ : gmap string atom))))
  ∧ (∀ k, k ≠ "h" → r' !! k = r !! k).
Proof.
  intros r value.
  apply (hmset_then_reads "h" value ∅ r).
  right. split; reflexivity.
Defined.

(** ** Reading a key the store does not hold *)

(** The reads that go through [self.redis[key]] answer with an empty
    default on a missing key, and all leave an empty hash at the key:
    afterwards [exists] is true for it and [type] says hash. *)
Theorem reads_create_empty_hash (key : string) (r : store) :
  r !! key = None →
  let r' := <[key := VDict ∅]> r in
  (∀ field, MockRedis.hget key field r = (Ok (Str ""), r'))
  ∧ MockRedis.hgetall key r = (Ok (VDict ∅), r')
  ∧ MockRedis.hlen key r = (Ok 0%Z, r')
  ∧ MockRedis.smembers key r = (Ok (VDict ∅), r')
  ∧ MockRedis.zcard key r = (Ok 0%Z, r')
  ∧ (∀ start num, MockRedis.zrevrange key start num false r = (Ok [], r'))
  ∧ MockRedis.exists_ key r' = (Ok true, r')
  ∧ MockRedis.type key r' = (Ok (Some "hash"), r').
Proof.
  intros Hk r'. subst r'. split_and!.
  - intros field. unfold MockRedis.hget. step. cbn [Py.contains].
    by rewrite bool_decide_eq_false_2 by (rewrite lookup_empty; by intros [? ?]).
  - unfold MockRedis.hgetall. by step.
  - unfold MockRedis.hlen. by step.
  - unfold MockRedis.smembers. by step.
  - by apply zcard_absent.
  - intros start num. by apply zrevrange_absent.
  - unfold MockRedis.exists_. by rewrite redis_contains_insert.
  - unfold MockRedis.type. by step.
Qed.

Lemma reads_create_empty_hash_witness :
  MockRedis.hgetall "h" ∅ = (Ok (VDict ∅), <["h" := VDict ∅]> ∅)
  ∧ MockRedis.exists_ "h" (<["h" := VDict ∅]> ∅) = (Ok true, <["h" := VDict ∅]> ∅).
Proof.
  pose proof (reads_create_empty_hash "h" ∅ (lookup_empty "h")) as Hreads.
  cbn zeta in Hreads.
  destruct Hreads as (_ & Hall & _ & _ & _ & _ & Hex & _).
  by split.
Defined.

(** ** Commands on an object of another kind *)

Lemma setitem_loop_wrong_kind key (items : list (string * atom)) v (r : store) :
  r !! key = Some v → type_of v ≠ Tdict → items ≠ [] →
  MockRedis.for_each items
    (λ '(k, a), MockRedis.mutate key (λ v, Py.setitem v k a)) r
  = (Raise TypeError, r).
Proof.
  intros Hk Hv Hne. destruct items as [|[k a] items]; [done|].
  cbn [MockRedis.for_each]. unfold mbind, M_bind.
  rewrite (mutate_Some_raise key _ v TypeError); [done..|]. by destruct v.
Qed.

(** On a key that holds a string, a set or a list, the writes of the hash
    and sorted-set commands raise [TypeError] and [zrevrange] raises
    [AttributeError]; the store is not changed.  With nothing to write,
    [hmset] and [zadd] succeed and change nothing.  [zadd] is called with
    keyword pairs none of which is named like one of its parameters.
    [hlen] and [zcard] count the elements of whatever object is there. *)
Theorem dict_commands_on_other_kind (key : string) (v : value) (r : store) :
  r !! key = Some v → type_of v ≠ Tdict →
  (∀ field a, MockRedis.hset key field a r = (Raise TypeError, r))
  ∧ (∀ m, m ≠ ∅ → MockRedis.hmset key m r = (Raise TypeError, r))
  ∧ MockRedis.hmset key ∅ r = (Ok (), r)
  ∧ (∀ pairs : gmap string atom, keyword_pairs pairs → pairs ≠ ∅ →
       ∃ m, MockRedis.zadd_call key pairs = Some m
            ∧ m r = (Raise TypeError, r))
  ∧ (∃ m, MockRedis.zadd_call key ∅ = Some m ∧ m r = (Ok (), r))
  ∧ (∀ member, MockRedis.zscore key member r = (Raise TypeError, r))
  ∧ (∀ start num,
       MockRedis.zrevrange key start num false r = (Raise AttributeError, r))
  ∧ MockRedis.hlen key r = (Ok (Py.len v), r)
  ∧ MockRedis.zcard key r = (Ok (Py.len v), r).
Proof.
  intros Hk Hv. split_and!.
  - intros field a. unfold MockRedis.hset.
    apply mutate_Some_raise with v; [done|]. by destruct v.
  - intros m Hm. unfold MockRedis.hmset.
    apply setitem_loop_wrong_kind with v; [done..|].
    by rewrite map_to_list_empty_iff.
  - unfold MockRedis.hmset. by rewrite map_to_list_empty.
  - intros pairs Hkw Hp. eexists. split; [by apply zadd_call_keyword_pairs|].
    unfold MockRedis.zadd. step.
    rewrite foldl_insert_map_to_list, (right_id_L ∅ (∪)).
    apply setitem_loop_wrong_kind with v; [done..|].
    by rewrite map_to_list_empty_iff.
  - eexists. split; [by apply zadd_call_keyword_pairs|].
    unfold MockRedis.zadd. step.
    rewrite foldl_insert_map_to_list, (right_id_L ∅ (∪)).
    by rewrite map_to_list_empty.
  - intros member. unfold MockRedis.zscore. step. by destruct v.
  - intros start num. unfold MockRedis.zrevrange. step. by destruct v.
  - unfold MockRedis.hlen. by step.
  - unfold MockRedis.zcard. by step.
Qed.

Lemma dict_commands_on_other_kind_witness :
  MockRedis.hset "l" "f" (Str "x") {[ "l" := VList ["a"] ]}
    = (Raise TypeError, {[ "l" := VList ["a"] ]})
  ∧ ∃ m, MockRedis.zadd_call "l" {[ "m" := Num 1 ]} = Some m
         ∧ m {[ "l" := VList ["a"] ]} = (Raise TypeError, {[ "l" := VList ["a"] ]}).
Proof.
  destruct (dict_commands_on_other_kind "l" (VList ["a"]) {[ "l" := VList ["a"] ]})
    as (Hhset & _ & _ & Hzadd & _); [reflexivity|discriminate|].
  split; [apply Hhset|apply Hzadd].
  - repeat split; reflexivity.
  - apply insert_non_empty.
Defined.

(** On a key that holds an object that is not a list, [rpush] of at least
    one value raises [AttributeError]; on a key that holds an object that is
    not a set, so do [sadd] and [srem]; the store is not changed. *)
Theorem list_set_commands_on_other_kind (key : string) (v : value) (r : store) :
  r !! key = Some v →
  (type_of v ≠ Tlist → ∀ args, args ≠ [] →
     MockRedis.rpush key args r = (Raise AttributeError, r))
  ∧ (type_of v ≠ Tset → ∀ x,
     MockRedis.sadd key x r = (Raise AttributeError, r)
     ∧ MockRedis.srem key x r = (Raise AttributeError, r)).
Proof.
  intros Hk. split.
  - intros Hv [|arg args] Hargs; [done|].
    unfold MockRedis.rpush. step. cbn [negb MockRedis.for_each].
    unfold ret, mbind, M_bind.
    rewrite (mutate_Some_raise key _ v AttributeError); [done..|]. by destruct v.
  - intros Hv x. split.
    + unfold MockRedis.sadd. step.
      apply mutate_Some_raise with v; [done|]. by destruct v.
    + unfold MockRedis.srem.
      apply mutate_Some_raise with v; [done|]. by destruct v.
Qed.

Lemma list_set_commands_on_other_kind_witness :
  MockRedis.rpush "h" ["x"] {[ "h" := VDict ∅ ]}
    = (Raise AttributeError, {[ "h" := VDict ∅ ]})
  ∧ MockRedis.sadd "h" "x" {[ "h" := VDict ∅ ]}
    = (Raise AttributeError, {[ "h" := VDict ∅ ]}).
Proof.
  destruct (list_set_commands_on_other_kind "h" (VDict ∅) {[ "h" := VDict ∅ ]})
    as (Hrpush & Hsadd); [reflexivity|].
  split; [apply Hrpush; discriminate|apply Hsadd; discriminate].
Defined.

(** ** What a command does to the other keys, and to the kind of an object *)

Lemma run_other_key_aux (c : command) (key k : string) (r : store) :
  command_key c = Some key → k ≠ key → (run c r).2 !! k = r !! k.
Proof.
  intros Hc Hne.
  destruct c; cbn [run command_key] in *; rewrite outcome_snd;
    try discriminate; injection Hc as ->.
  - unfold MockRedis.type. destruct (r !! key) eqn:Hk; other_key.
  - unfold MockRedis.get. destruct (r !! key) eqn:Hk; other_key.
  - unfold MockRedis.delete, MockRedis.redis_delitem.
    destruct (r !! key) eqn:Hk; step; rewrite ?Hk; cbn [snd];
      by rewrite ?lookup_delete_ne.
  - done.
  - unfold MockRedis.hget. destruct (r !! key) eqn:Hk; other_key.
  - unfold MockRedis.hgetall. destruct (r !! key) eqn:Hk; other_key.
  - unfold MockRedis.hlen. destruct (r !! key) eqn:Hk; other_key.
  - unfold MockRedis.hmset. rewrite for_each_other; [done|].
    intros [? ?] ?. by apply mutate_other.
  - unfold MockRedis.hset. by rewrite mutate_other.
  - unfold MockRedis.lrange. destruct (r !! key) eqn:Hk; other_key.
  - unfold MockRedis.rpush.
    destruct (r !! key) eqn:Hk; step; cbn [negb]; unfold ret;
      (rewrite for_each_other; [by rewrite ?lookup_insert_ne|]);
      intros ? ?; by apply mutate_other.
  - unfold MockRedis.rpop.
    destruct (r !! key) as [v|] eqn:Hk; [|other_key].
    step. destruct (Py.pop v) as [[x v']|e'] eqn:Hpop; step; [|done].
    destruct (Py.eq_empty_list v').
    + rewrite (delete_present key v') by apply lookup_insert_eq. cbn [snd].
      by rewrite lookup_delete_ne, lookup_insert_ne.
    + cbn [snd]. by rewrite lookup_insert_ne.
  - unfold MockRedis.sadd, MockRedis.mutate.
    destruct (r !! key) eqn:Hk; other_key.
  - unfold MockRedis.srem. by rewrite mutate_other.
  - unfold MockRedis.srandmember. destruct (r !! key) eqn:Hk; other_key.
  - unfold MockRedis.smembers. destruct (r !! key) eqn:Hk; other_key.
  - unfold MockRedis.zadd.
    repeat match goal with o : option _ |- _ => destruct o end; step; try done;
      (rewrite for_each_other; [done|]);
      intros [? ?] ?; by apply mutate_other.
  - unfold MockRedis.zscore. destruct (r !! key) eqn:Hk; other_key.
  - unfold MockRedis.zrevrange. destruct withscores; [done|].
    destruct (r !! key) eqn:Hk; other_key.
  - unfold MockRedis.zcard. destruct (r !! key) eqn:Hk; other_key.
Qed.

(** Every command that is called on a key leaves the entries of all other
    keys as they were ([flushdb], called on no key, is the exception). *)
Theorem run_other_key (k : string) :
  (∀ (c : command) (key : string) (r : store),
     command_key c = Some key → k ≠ key → (run c r).2 !! k = r !! k)
  ∧ (∀ (cs : list command) (r : store),
     Forall (λ c, ∃ key, command_key c = Some key ∧ k ≠ key) cs →
     run_all cs r !! k = r !! k).
Proof.
  split.
  - intros c key r. apply run_other_key_aux.
  - intros cs. induction cs as [|c cs IH]; intros r Hcs; [done|].
    apply Forall_cons in Hcs as [(key & Hc & Hne) Hcs].
    cbn [run_all foldl]. fold (run_all cs (run c r).2).
    rewrite IH by done. by apply run_other_key_aux with key.
Qed.

Lemma run_other_key_witness :
  (run (Crpop "q") {[ "q" := VList ["1"]; "s" := VSet {[ "a" ]} ]}).2 !! "s"
  = ({[ "q" := VList ["1"]; "s" := VSet {[ "a" ]} ]} : store) !! "s"
  ∧ run_all [Crpop "q"; Ctype "t"] {[ "q" := VList ["1"]; "s" := VSet {[ "a" ]} ]} !! "s"
  = ({[ "q" := VList ["1"]; "s" := VSet {[ "a" ]} ]} : store) !! "s".
Proof.
  destruct (run_other_key "s") as [Hone Hall]. split.
  - apply (Hone (Crpop "q") "q"); [reflexivity|discriminate].
  - apply Hall. repeat constructor.
    + exists "q". split; [reflexivity|discriminate].
    + exists "t". split; [reflexivity|discriminate].
Defined.

Lemma for_each_invariant {A} (P : store → Prop) (body : A → M unit) items :
  (∀ x r, P r → P (body x r).2) →
  ∀ r, P r → P (MockRedis.for_each items body r).2.
Proof.
  intros Hbody. induction items as [|x items IH]; intros r Hr; [done|].
  cbn [MockRedis.for_each]. unfold mbind, M_bind.
  specialize (Hbody x r Hr). destruct (body x r) as [[[]|e] r']; cbn [snd] in *.
  - by apply IH.
  - done.
Qed.

(** An in-place operation that keeps the kind of the object keeps the kind
    of what the key holds. *)
Lemma mutate_kind key op t (r : store) :
  (∀ v v', op v = Ok v' → type_of v' = type_of v) →
  (∃ v, r !! key = Some v ∧ type_of v = t) →
  ∃ v, (MockRedis.mutate key op r).2 !! key = Some v ∧ type_of v = t.
Proof.
  intros Hop (v & Hk & Hv). unfold MockRedis.mutate. step.
  destruct (op v) as [v'|e] eqn:Hopv; step; cbn [snd].
  - exists v'. rewrite lookup_insert_eq. split; [done|].
    by rewrite (Hop v v').
  - by exists v.
Qed.

Lemma pop_kind v x v' : Py.pop v = Ok (x, v') → type_of v' = type_of v.
Proof.
  destruct v as [s|d|s|l]; cbn; try discriminate.
  - destruct (elements s); [discriminate|]. by intros [= _ <-].
  - destruct (last l); [|discriminate]. by intros [= _ <-].
Qed.

(** What a command leaves at a key that held an object: an object of the
    same kind, or nothing, and nothing only after [delete], [rpop] or
    [flushdb]. *)
Lemma run_kind_or_removed (c : command) (k : string) (v : value) (r : store) :
  r !! k = Some v →
  (may_remove c = true ∧ (run c r).2 !! k = None)
  ∨ ∃ v', (run c r).2 !! k = Some v' ∧ type_of v' = type_of v.
Proof.
  intros Hk.
  destruct (decide (command_key c = Some k)) as [Hown|Hother].
  - assert (Hloop : ∀ items : list (string * atom),
      ∃ v', (MockRedis.for_each items
               (λ '(f, a), MockRedis.mutate k (λ v, Py.setitem v f a)) r).2 !! k
            = Some v' ∧ type_of v' = type_of v).
    { intros items.
      apply (for_each_invariant (λ r, ∃ v', r !! k = Some v' ∧ type_of v' = type_of v));
        [|by exists v].
      intros [f a] r' Hr'. apply mutate_kind; [|done].
      intros [] ? [= <-]; done. }
    destruct c; cbn [run command_key may_remove] in *; rewrite outcome_snd;
      try discriminate; injection Hown as ->.
    + right. unfold MockRedis.type. split_outcomes; eauto.
    + right. unfold MockRedis.get. split_outcomes; eauto.
    + left. split; [done|]. rewrite (delete_present k v) by done.
      apply lookup_delete_eq.
    + right. unfold MockRedis.exists_, MockRedis.redis_contains. eauto.
    + right. unfold MockRedis.hget. split_outcomes; eauto.
    + right. unfold MockRedis.hgetall. split_outcomes; eauto.
    + right. unfold MockRedis.hlen. split_outcomes; eauto.
    + right. apply Hloop.
    + right. unfold MockRedis.hset. apply mutate_kind; [|by exists v].
      intros [] ? [= <-]; done.
    + right. unfold MockRedis.lrange. split_outcomes; eauto.
    + right. unfold MockRedis.rpush. step. cbn [negb]. unfold ret.
      apply (for_each_invariant (λ r, ∃ v', r !! k = Some v' ∧ type_of v' = type_of v));
        [|by exists v].
      intros arg r' Hr'. apply mutate_kind; [|done].
      intros [] ? [= <-]; done.
    + unfold MockRedis.rpop. step.
      destruct (Py.pop v) as [[x v']|e'] eqn:Hpop; step; [|right; by exists v].
      apply pop_kind in Hpop. destruct (Py.eq_empty_list v').
      * left. split; [done|].
        rewrite (delete_present k v') by apply lookup_insert_eq. cbn [snd].
        apply lookup_delete_eq.
      * right. exists v'. cbn [snd]. by rewrite lookup_insert_eq.
    + right. unfold MockRedis.sadd. step. apply mutate_kind; [|by exists v].
      intros [] ? [= <-]; done.
    + right. unfold MockRedis.srem. apply mutate_kind; [|by exists v].
      intros [] ? [= <-]; done.
    + right. unfold MockRedis.srandmember. split_outcomes; eauto.
    + right. unfold MockRedis.smembers. split_outcomes; eauto.
    + right. unfold MockRedis.zadd.
      repeat match goal with o : option _ |- _ => destruct o end; step;
        solve [apply Hloop | by exists v].
    + right. unfold MockRedis.zscore. split_outcomes; eauto.
    + right. unfold MockRedis.zrevrange. split_outcomes; eauto.
    + right. unfold MockRedis.zcard. split_outcomes; eauto.
  - destruct (command_key c) as [key|] eqn:Hc.
    + right. exists v. split; [|done].
      by rewrite (run_other_key_aux c key k) by congruence.
    + left. destruct c; try discriminate. done.
Qed.

(** No command changes the kind of the object at a key: as long as the
    key is in the store, it holds an object of the kind it held before. *)
Theorem key_keeps_kind (c : command) (k : string) (v v' : value) (r : store) :
  r !! k = Some v → (run c r).2 !! k = Some v' → type_of v' = type_of v.
Proof.
  intros Hk Hk'.
  destruct (run_kind_or_removed c k v r Hk) as [[_ Hnone]|(v'' & Hsome & Hkind)].
  - rewrite Hnone in Hk'. discriminate.
  - rewrite Hsome in Hk'. by injection Hk' as <-.
Qed.

Lemma key_keeps_kind_witness :
  type_of (VList ["1"; "2"]) = type_of (VList ["1"]).
Proof.
  apply (key_keeps_kind (Crpush "q" ["2"]) "q" (VList ["1"]) (VList ["1"; "2"])
           {[ "q" := VList ["1"] ]}); reflexivity.
Defined.

(** Only [delete], [rpop] and [flushdb] take a key out of the store: under
    every other command a key that is present stays present. *)
Theorem only_delete_rpop_flushdb_remove (c : command) (k : string) (r : store) :
  may_remove c = false → is_Some (r !! k) → is_Some ((run c r).2 !! k).
Proof.
  intros Hc [v Hk].
  destruct (run_kind_or_removed c k v r Hk) as [[Hrem _]|(v' & Hsome & _)].
  - rewrite Hrem in Hc. discriminate.
  - by exists v'.
Qed.

Lemma only_delete_rpop_flushdb_remove_witness :
  is_Some ((run (Csrem "s" "a") {[ "s" := VSet {[ "a" ]} ]}).2 !! "s").
Proof.
  apply (only_delete_rpop_flushdb_remove (Csrem "s" "a") "s").
  - reflexivity.
  - exists (VSet {[ "a" ]}). reflexivity.
Defined.

(** ** Deleting and flushing *)

(** [delete] never raises; afterwards [exists] is false for the key,
    whatever it held, and the other keys are as before; on a key the
    store does not hold it changes nothing. *)
Theorem delete_then_exists (key : string) (r : store) :
  MockRedis.delete key r = (Ok (), base.delete key r)
  ∧ MockRedis.exists_ key (base.delete key r) = (Ok false, base.delete key r)
  ∧ (∀ k, k ≠ key → base.delete key r !! k = r !! k)
  ∧ (r !! key = None → MockRedis.delete key r = (Ok (), r)).
Proof.
  split_and!.
  - destruct (r !! key) as [v|] eqn:Hk.
    + by apply delete_present with v.
    + rewrite delete_absent by done. by rewrite delete_id.
  - unfold MockRedis.exists_. apply redis_contains_None, lookup_delete_eq.
  - intros k Hne. by apply lookup_delete_ne.
  - apply delete_absent.
Qed.

Lemma delete_then_exists_witness :
  base.delete "k" ({[ "k" := VStr "v"; "j" := VList [] ]} : store) !! "j"
  = ({[ "k" := VStr "v"; "j" := VList [] ]} : store) !! "j"
  ∧ MockRedis.delete "k" ∅ = (Ok (), ∅).
Proof.
  destruct (delete_then_exists "k" {[ "k" := VStr "v"; "j" := VList [] ]})
    as (_ & _ & Hother & _).
  destruct (delete_then_exists "k" ∅) as (_ & _ & _ & Habsent).
  split; [apply Hother; discriminate|apply Habsent; reflexivity].
Defined.

(** [get] returns the object at the key, of whatever kind. *)
Lemma get_returns_stored (key : string) (r : store) :
  MockRedis.get key r = (Ok (default (VStr "") (r !! key)), r).
Proof.
  unfold MockRedis.get.
  destruct (r !! key) as [v|] eqn:Hk; step; cbn [negb]; by step.
Qed.

(** [flushdb] empties the dict itself. *)
Lemma flushdb_empty (r : store) : MockRedis.flushdb r = (Ok (), ∅).
Proof. done. Qed.

(** ** Instances and the dict of the class *)




(** ** Lists: missing keys and empty lists *)

(** [lrange] on a key the store does not hold returns [None] and leaves
    an empty list at the key, as does [rpush] without values.  The key
    then exists and is of type list; [lrange] on it returns the empty
    list, and [rpop] on it raises [IndexError] and leaves it there. *)
Theorem lrange_absent_creates_list (key : string) (r : store) :
  r !! key = None →
  let r' := <[key := VList []]> r in
  (∀ start stop, MockRedis.lrange key start stop r = (Ok None, r'))
  ∧ MockRedis.rpush key [] r = (Ok (), r')
  ∧ MockRedis.exists_ key r' = (Ok true, r')
  ∧ MockRedis.type key r' = (Ok (Some "list"), r')
  ∧ (∀ start stop,
       MockRedis.lrange key start stop r' = (Ok (Some (VList [])), r'))
  ∧ MockRedis.rpop key r' = (Raise IndexError, r').
Proof.
  intros Hk r'. subst r'. split_and!.
  - intros start stop. unfold MockRedis.lrange. by step.
  - by apply rpush_absent.
  - unfold MockRedis.exists_. by rewrite redis_contains_insert.
  - unfold MockRedis.type. by step.
  - intros start stop.
    rewrite (lrange_list key start stop []) by apply lookup_insert_eq.
    do 3 f_equal. unfold Py.slice. by rewrite drop_nil, take_nil.
  - unfold MockRedis.rpop. by step.
Qed.

Lemma lrange_absent_creates_list_witness :
  MockRedis.rpush "q" [] ∅ = (Ok (), <["q" := VList []]> ∅)
  ∧ MockRedis.rpop "q" (<["q" := VList []]> ∅)
    = (Raise IndexError, <["q" := VList []]> ∅).
Proof.
  pose proof (lrange_absent_creates_list "q" ∅ (lookup_empty "q")) as Hq.
  cbn zeta in Hq. destruct Hq as (_ & Hpush & _ & _ & _ & Hpop).
  by split.
Defined.

(** [rpop] on a key the store does not hold returns [None] and changes
    nothing.  Whenever [rpop] returns a value, the key held a list ending
    in that value, or a set with that value as a member: [pop] also
    exists on sets, and the set then loses the member while the key stays,
    even with no member left. *)
Theorem rpop_what_it_pops (key : string) (r : store) :
  (r !! key = None → MockRedis.rpop key r = (Ok None, r))
  ∧ (∀ x, (MockRedis.rpop key r).1 = Ok (Some x) →
       (∃ l, r !! key = Some (VList (l ++ [x])))
       ∨ (∃ s, r !! key = Some (VSet s) ∧ x ∈ s
             ∧ (MockRedis.rpop key r).2 = <[key := VSet (s ∖ {[x]})]> r)).
Proof.
  split.
  - intros Hk. unfold MockRedis.rpop. by step.
  - intros x Hres.
    destruct (r !! key) as [v|] eqn:Hk;
      [|revert Hres; unfold MockRedis.rpop; step; cbn [fst]; discriminate].
    destruct v as [s|d|s|l].
    + revert Hres. unfold MockRedis.rpop. step. cbn [fst]. discriminate.
    + revert Hres. unfold MockRedis.rpop. step. cbn [fst]. discriminate.
    + right. exists s. split; [done|].
      revert Hres. unfold MockRedis.rpop. step. cbn [Py.pop].
      destruct (elements s) as [|y ys] eqn:Hel; [cbn [fst]; discriminate|].
      step. cbn [Py.eq_empty_list]. step. cbn [fst snd]. intros [= ->].
      split; [|done]. apply elem_of_elements. rewrite Hel. by left.
    + left. destruct (decide (l = [])) as [->|Hl].
      * revert Hres. unfold MockRedis.rpop. step. cbn [fst]. discriminate.
      * destruct (exists_last Hl) as (l' & y & ->).
        rewrite (rpop_snoc key l' y) in Hres by done. cbn [fst] in Hres.
        injection Hres as ->. by exists l'.
Qed.

Lemma rpop_what_it_pops_witness :
  MockRedis.rpop "q" ∅ = (Ok None, ∅)
  ∧ ((∃ l, ({[ "s" := VSet {[ "a" ]} ]} : store) !! "s" = Some (VList (l ++ ["a"])))
     ∨ (∃ s, ({[ "s" := VSet {[ "a" ]} ]} : store) !! "s" = Some (VSet s) ∧ "a" ∈ s
           ∧ (MockRedis.rpop "s" {[ "s" := VSet {[ "a" ]} ]}).2
             = <["s" := VSet (s ∖ {[ "a" ]})]> {[ "s" := VSet {[ "a" ]} ]})).
Proof.
  destruct (rpop_what_it_pops "q" ∅) as [Habsent _].
  destruct (rpop_what_it_pops "s" {[ "s" := VSet {[ "a" ]} ]}) as [_ Hpop].
  split; [apply Habsent; reflexivity|apply Hpop; reflexivity].
Defined.

(** [rpush] of one value followed by [rpop] returns that value and gives
    back the store as it was, when the key was missing or held a list with
    at least one element. *)
Theorem rpush_rpop_round_trip (key x : string) (r : store) :
  r !! key = None ∨ (∃ l, l ≠ [] ∧ r !! key = Some (VList l)) →
  MockRedis.rpop key (MockRedis.rpush key [x] r).2 = (Ok (Some x), r).
Proof.
  intros [Hk|(l & Hl & Hk)].
  - rewrite rpush_absent by done. cbn [snd].
    rewrite (rpop_snoc key [] x) by apply lookup_insert_eq.
    rewrite decide_True by done. by rewrite delete_insert_eq, delete_id.
  - rewrite (rpush_list key [x] l) by done. cbn [snd].
    rewrite (rpop_snoc key l x) by apply lookup_insert_eq.
    rewrite decide_False by done. by rewrite insert_insert_eq, insert_id.
Qed.

Lemma rpush_rpop_round_trip_witness :
  MockRedis.rpop "q" (MockRedis.rpush "q" ["x"] {[ "q" := VList ["a"] ]}).2
  = (Ok (Some "x"), {[ "q" := VList ["a"] ]}).
Proof.
  apply (rpush_rpop_round_trip "q" "x" {[ "q" := VList ["a"] ]}).
  right. exists ["a"]. split; [discriminate|reflexivity].
Defined.

(** ** The bounds of [lrange] *)

Lemma slice_from_end {A} (l : list A) (start j : nat) :
  0 < j →
  Py.slice l (Z.of_nat start) (- Z.of_nat j)
  = take (length l - j - start) (drop start l).
Proof.
  intros Hj. unfold Py.slice, Py.clip.
  rewrite (proj2 (Z.ltb_ge (Z.of_nat start) 0)) by lia.
  rewrite (proj2 (Z.ltb_lt (- Z.of_nat j) 0)) by lia.
  destruct (decide (length l ≤ start)) as [Hge|Hlt].
  - rewrite !drop_ge by lia. by rewrite !take_nil.
  - replace (Z.to_nat (Z.of_nat start `min` _)) with start by lia.
    f_equal. lia.
Qed.

(** On a list, [lrange] changes nothing in the store, and: a [stop] at or
    past the last index gives the list from [start] to its end; a [stop]
    before [start] gives the empty list; [stop = -1] gives the empty list
    for every [start], since the upper bound [stop + 1] is then [0]; and
    [stop = -(j + 1)] with [j > 0] leaves out the last [j] elements. *)
Theorem lrange_bounds (key : string) (l : list string) (r : store) :
  r !! key = Some (VList l) →
  (∀ start stop : nat, length l ≤ S stop →
     MockRedis.lrange key (Z.of_nat start) (Z.of_nat stop) r
     = (Ok (Some (VList (drop start l))), r))
  ∧ (∀ start stop : nat, stop < start →
     MockRedis.lrange key (Z.of_nat start) (Z.of_nat stop) r
     = (Ok (Some (VList [])), r))
  ∧ (∀ start : nat,
     MockRedis.lrange key (Z.of_nat start) (-1) r = (Ok (Some (VList [])), r))
  ∧ (∀ start j : nat, 0 < j →
     MockRedis.lrange key (Z.of_nat start) (- Z.of_nat j - 1) r
     = (Ok (Some (VList (take (length l - j - start) (drop start l)))), r)).
Proof.
  intros Hk. split_and!.
  - intros start stop Hstop. rewrite (lrange_list key _ _ l) by done.
    do 4 f_equal. apply list_eq. intros i.
    rewrite slice_inclusive, lookup_drop. case_decide; [done|].
    symmetry. apply lookup_ge_None_2. lia.
  - intros start stop Hlt. rewrite (lrange_list key _ _ l) by done.
    do 4 f_equal. apply list_eq. intros i.
    rewrite slice_inclusive. rewrite decide_False by lia. done.
  - intros start. by apply lrange_stop_minus_one with l; [|lia].
  - intros start j Hj. rewrite (lrange_list key _ _ l) by done.
    do 4 f_equal. replace (- Z.of_nat j - 1 + 1)%Z with (- Z.of_nat j)%Z by lia.
    by apply slice_from_end.
Qed.

Lemma lrange_bounds_witness :
  MockRedis.lrange "q" (Z.of_nat 1) (Z.of_nat 9) {[ "q" := VList ["a"; "b"; "c"] ]}
    = (Ok (Some (VList (drop 1 ["a"; "b"; "c"]))), {[ "q" := VList ["a"; "b"; "c"] ]})
  ∧ MockRedis.lrange "q" (Z.of_nat 2) (Z.of_nat 1) {[ "q" := VList ["a"; "b"; "c"] ]}
    = (Ok (Some (VList [])), {[ "q" := VList ["a"; "b"; "c"] ]})
  ∧ MockRedis.lrange "q" (Z.of_nat 0) (-1) {[ "q" := VList ["a"; "b"; "c"] ]}
    = (Ok (Some (VList [])), {[ "q" := VList ["a"; "b"; "c"] ]})
  ∧ MockRedis.lrange "q" (Z.of_nat 0) (- Z.of_nat 1 - 1) {[ "q" := VList ["a"; "b"; "c"] ]}
    = (Ok (Some (VList (take (length ["a"; "b"; "c"] - 1 - 0) (drop 0 ["a"; "b"; "c"])))),
       {[ "q" := VList ["a"; "b"; "c"] ]}).
Proof.
  destruct (lrange_bounds "q" ["a"; "b"; "c"] {[ "q" := VList ["a"; "b"; "c"] ]})
    as (Hpast & Hbefore & Hminus & Hend); [reflexivity|].
  split_and!.
  - apply Hpast. cbn. lia.
  - apply Hbefore. lia.
  - apply Hminus.
  - apply Hend. lia.
Defined.

(** ** Sets: members, and keys that became hashes *)

Lemma sadd_absent key x (r : store) :
  r !! key = None → MockRedis.sadd key x r = (Ok (), <[key := VSet {[x]}]> r).
Proof. intros Hk. unfold MockRedis.sadd. by step. Qed.

Lemma sadd_set key x s (r : store) :
  r !! key = Some (VSet s) →
  MockRedis.sadd key x r = (Ok (), <[key := VSet ({[x]} ∪ s)]> r).
Proof.
  intros Hk. unfold MockRedis.sadd. step. by apply mutate_Some with (VSet s).
Qed.

Lemma smembers_present key v (r : store) :
  r !! key = Some v → MockRedis.smembers key r = (Ok v, r).
Proof. intros Hk. unfold MockRedis.smembers. by step. Qed.

(** [sadd] on a set, or on a key the store does not hold, makes the value
    a member and keeps the members there were; a second [sadd] of the same
    value changes nothing; on a missing key the set made has that one
    member. *)
Theorem sadd_then_smembers (key x : string) (r : store) :
  r !! key = None ∨ (∃ s, r !! key = Some (VSet s)) →
  let r1 := (MockRedis.sadd key x r).2 in
  (MockRedis.sadd key x r).1 = Ok ()
  ∧ MockRedis.sadd key x r1 = (Ok (), r1)
  ∧ ∃ s', MockRedis.smembers key r1 = (Ok (VSet s'), r1)
      ∧ x ∈ s'
      ∧ (r !! key = None → s' = {[x]})
      ∧ (∀ s, r !! key = Some (VSet s) → s' = {[x]} ∪ s).
Proof.
  intros [Hk|(s & Hk)] r1; subst r1.
  - rewrite sadd_absent by done. cbn [fst snd]. split; [done|]. split.
    + rewrite (sadd_set key x {[x]}) by apply lookup_insert_eq.
      by rewrite insert_insert_eq, (idemp_L (∪)).
    + exists {[x]}. rewrite (smembers_present key (VSet {[x]})) by apply lookup_insert_eq.
      split; [done|]. split; [set_solver|]. split; [done|].
      intros s Hs. congruence.
  - rewrite (sadd_set key x s) by done. cbn [fst snd]. split; [done|]. split.
    + rewrite (sadd_set key x ({[x]} ∪ s)) by apply lookup_insert_eq.
      by rewrite insert_insert_eq, (assoc_L (∪)), (idemp_L (∪)).
    + exists ({[x]} ∪ s).
      rewrite (smembers_present key (VSet ({[x]} ∪ s))) by apply lookup_insert_eq.
      split; [done|]. split; [set_solver|]. split; [congruence|].
      intros s' Hs'. congruence.
Qed.

Lemma sadd_then_smembers_witness :
  let r1 := (MockRedis.sadd "s" "x" ∅).2 in
  (MockRedis.sadd "s" "x" ∅).1 = Ok ()
  ∧ MockRedis.sadd "s" "x" r1 = (Ok (), r1)
  ∧ ∃ s', MockRedis.smembers "s" r1 = (Ok (VSet s'), r1)
      ∧ "x" ∈ s'
      ∧ ((∅ : store) !! "s" = None → s' = {[ "x" ]})
      ∧ (∀ s, (∅ : store) !! "s" = Some (VSet s) → s' = {[ "x" ]} ∪ s).
Proof.
  apply (sadd_then_smembers "s" "x" ∅). left. reflexivity.
Defined.

(** The order of the first calls on a key decides what it becomes: [sadd]
    and [rpush] on a missing key succeed, but after a read of the key that
    made it an empty hash ([smembers], [type], or an [srem] that failed)
    they raise [AttributeError]. *)
Theorem read_before_write_blocks_sets_and_lists (key x : string) (r : store) :
  r !! key = None →
  (MockRedis.sadd key x r).1 = Ok ()
  ∧ (MockRedis.rpush key [x] r).1 = Ok ()
  ∧ (MockRedis.sadd key x (MockRedis.smembers key r).2).1 = Raise AttributeError
  ∧ (MockRedis.sadd key x (MockRedis.srem key x r).2).1 = Raise AttributeError
  ∧ (MockRedis.rpush key [x] (MockRedis.type key r).2).1 = Raise AttributeError
  ∧ (MockRedis.srem key x (MockRedis.smembers key r).2).1 = Raise AttributeError.
Proof.
  intros Hk.
  assert (Hsadd : ∀ r' : store, r' !! key = Some (VDict ∅) →
            MockRedis.sadd key x r' = (Raise AttributeError, r')).
  { intros r' Hr'. unfold MockRedis.sadd. step.
    by apply mutate_Some_raise with (VDict ∅). }
  split_and!.
  - by rewrite sadd_absent.
  - by rewrite rpush_absent.
  - unfold MockRedis.smembers. rewrite redis_getitem_None by done. cbn [snd].
    by rewrite Hsadd by apply lookup_insert_eq.
  - rewrite srem_absent by done. cbn [snd].
    by rewrite Hsadd by apply lookup_insert_eq.
  - assert (MockRedis.type key r = (Ok (Some "hash"), <[key := VDict ∅]> r)) as ->
      by (unfold MockRedis.type; by step).
    cbn [snd]. unfold MockRedis.rpush. step. cbn [negb MockRedis.for_each].
    unfold ret, mbind, M_bind.
    by rewrite (mutate_Some_raise key _ (VDict ∅) AttributeError)
      by (try apply lookup_insert_eq; done).
  - unfold MockRedis.smembers. rewrite redis_getitem_None by done. cbn [snd].
    unfold MockRedis.srem.
    by rewrite (mutate_Some_raise key _ (VDict ∅) AttributeError)
      by (try apply lookup_insert_eq; done).
Qed.

Lemma read_before_write_blocks_sets_and_lists_witness :
  (MockRedis.sadd "s" "x" ∅).1 = Ok ()
  ∧ (MockRedis.sadd "s" "x" (MockRedis.smembers "s" ∅).2).1 = Raise AttributeError.
Proof.
  destruct (read_before_write_blocks_sets_and_lists "s" "x" ∅ (lookup_empty "s"))
    as (Hfirst & _ & Hafter & _).
  by split.
Defined.

(** [srem] on a set takes the member out and keeps the others; the key
    stays in the store as a set even when no member is left; when the
    member was not in the set the store is unchanged. *)
Theorem srem_keeps_the_key (key member : string) (s : gset string) (r : store) :
  r !! key = Some (VSet s) →
  let r' := (MockRedis.srem key member r).2 in
  (MockRedis.srem key member r).1 = Ok ()
  ∧ MockRedis.smembers key r' = (Ok (VSet (s ∖ {[member]})), r')
  ∧ MockRedis.exists_ key r' = (Ok true, r')
  ∧ MockRedis.type key r' = (Ok (Some "set"), r')
  ∧ (member ∉ s → r' = r).
Proof.
  intros Hk r'. subst r'. rewrite (srem_set key member s) by done.
  cbn [fst snd]. split_and!.
  - done.
  - by apply smembers_present, lookup_insert_eq.
  - unfold MockRedis.exists_. by rewrite redis_contains_insert.
  - unfold MockRedis.type. by step.
  - intros Hm. apply insert_id. rewrite Hk. do 2 f_equal.
    symmetry. apply difference_disjoint_L. by apply disjoint_singleton_r.
Qed.

Lemma srem_keeps_the_key_witness :
  let r' := (MockRedis.srem "s" "a" {[ "s" := VSet {[ "a" ]} ]}).2 in
  (MockRedis.srem "s" "a" {[ "s" := VSet {[ "a" ]} ]}).1 = Ok ()
  ∧ MockRedis.smembers "s" r' = (Ok (VSet ({[ "a" ]} ∖ {[ "a" ]})), r')
  ∧ MockRedis.exists_ "s" r' = (Ok true, r')
  ∧ MockRedis.type "s" r' = (Ok (Some "set"), r')
  ∧ ("a" ∉ ({[ "a" ]} : gset string) → r' = {[ "s" := VSet {[ "a" ]} ]}).
Proof.
  apply (srem_keeps_the_key "s" "a" {[ "a" ]} {[ "s" := VSet {[ "a" ]} ]}).
  reflexivity.
Defined.

(** On a set with members, [srandmember] leaves the store as it is and
    returns a member or [None]; whatever the draws, it never returns two
    different members; and on a set with one member it returns that member
    for every draw. *)
Theorem srandmember_one_candidate (key : string) (s : gset string) (r : store) :
  r !! key = Some (VSet s) → s ≠ ∅ →
  (∀ rnd, (MockRedis.srandmember rnd key r).2 = r)
  ∧ (∀ rnd x, (MockRedis.srandmember rnd key r).1 = Ok (Some x) → x ∈ s)
  ∧ (∀ rnd rnd' x x',
       (MockRedis.srandmember rnd key r).1 = Ok (Some x) →
       (MockRedis.srandmember rnd' key r).1 = Ok (Some x') → x = x')
  ∧ (∀ x, s = {[x]} →
       ∀ rnd, (MockRedis.srandmember rnd key r).1 = Ok (Some x)).
Proof.
  intros Hk Hs.
  assert (Hres : ∀ rnd x, (MockRedis.srandmember rnd key r).1 = Ok (Some x) →
            head (elements s) = Some x).
  { intros rnd x. rewrite (srandmember_set rnd key s) by done. cbn [fst].
    destruct (_ =? _)%Z; [|discriminate]. by intros [= ->]. }
  split_and!.
  - intros rnd. by rewrite (srandmember_set rnd key s).
  - intros rnd x Hx%Hres. apply elem_of_elements.
    destruct (elements s); [discriminate|]. injection Hx as ->. by left.
  - intros rnd rnd' x x' Hx%Hres Hx'%Hres. congruence.
  - intros x -> rnd. rewrite (srandmember_set rnd key {[x]}) by done.
    cbn [fst]. rewrite size_singleton, Z.mod_1_r, elements_singleton. done.
Qed.

Lemma srandmember_one_candidate_witness :
  (∀ rnd, (MockRedis.srandmember rnd "s" {[ "s" := VSet {[ "a" ]} ]}).2
          = {[ "s" := VSet {[ "a" ]} ]})
  ∧ (∀ rnd, (MockRedis.srandmember rnd "s" {[ "s" := VSet {[ "a" ]} ]}).1
            = Ok (Some "a")).
Proof.
  destruct (srandmember_one_candidate "s" {[ "a" ]} {[ "s" := VSet {[ "a" ]} ]})
    as (Hstore & _ & _ & Hone); [reflexivity|apply non_empty_singleton_L|].
  split; [exact Hstore|by apply Hone].
Defined.

(** ** Sorted sets: writing scores *)

Lemma zscore_dict_at name member d (r : store) :
  dict_at name r d →
  (MockRedis.zscore name member r).1
  = match d !! member with Some a => Ok a | None => Raise KeyError end.
Proof.
  intros [Hgi _]%dict_at_getitem. unfold MockRedis.zscore.
  unfold mbind, M_bind. rewrite Hgi. cbn. by destruct (d !! member).
Qed.

Lemma zcard_dict_at name d (r : store) :
  dict_at name r d → (MockRedis.zcard name r).1 = Ok (Z.of_nat (size d)).
Proof.
  intros [Hgi _]%dict_at_getitem. unfold MockRedis.zcard.
  unfold mbind, M_bind. by rewrite Hgi.
Qed.

Lemma zadd_pairs_dict_at name (pairs d : gmap string atom) (r : store) :
  dict_at name r d →
  ∃ r', MockRedis.zadd name None None pairs r = (Ok (), r')
        ∧ dict_at name r' (pairs ∪ d)
        ∧ ∀ k, k ≠ name → r' !! k = r !! k.
Proof.
  intros Hd. unfold MockRedis.zadd. step.
  rewrite foldl_insert_map_to_list, (right_id_L ∅ (∪)).
  destruct (setitem_loop_dict_at name (map_to_list pairs) d r Hd)
    as (r' & Hrun & Hd' & Hother).
  exists r'. by rewrite <- foldl_insert_map_to_list.
Qed.

Lemma zadd_legacy_dict_at name value score (pairs d : gmap string atom)
    (r : store) :
  dict_at name r d →
  ∃ r', MockRedis.zadd name (Some value) (Some score) pairs r = (Ok (), r')
        ∧ dict_at name r' (pairs ∪ {[value := score]} ∪ d)
        ∧ ∀ k, k ≠ name → r' !! k = r !! k.
Proof.
  intros Hd. unfold MockRedis.zadd. step.
  rewrite foldl_insert_map_to_list, insert_empty.
  destruct (setitem_loop_dict_at name (map_to_list (pairs ∪ {[value := score]})) d r Hd)
    as (r' & Hrun & Hd' & Hother).
  rewrite foldl_insert_map_to_list in Hd'. by exists r'.
Qed.

(** [zadd] called with keyword pairs none of which is named like one of
    its parameters, on a sorted set or on a name the store does not hold,
    sets the score of every member given: afterwards [zscore] returns the
    new score for those members and answers as before for all others, and
    [zcard] counts the distinct members. *)
Theorem zadd_then_zscore (name : string) (pairs d : gmap string atom)
    (r : store) :
  dict_at name r d → keyword_pairs pairs →
  ∃ m, MockRedis.zadd_call name pairs = Some m ∧
  let r' := (m r).2 in
  (m r).1 = Ok ()
  ∧ (∀ member a, pairs !! member = Some a →
       (MockRedis.zscore name member r').1 = Ok a)
  ∧ (∀ member, pairs !! member = None →
       (MockRedis.zscore name member r').1 = (MockRedis.zscore name member r).1)
  ∧ (MockRedis.zcard name r').1 = Ok (Z.of_nat (size (dom pairs ∪ dom d)))
  ∧ (∀ k, k ≠ name → r' !! k = r !! k).
Proof.
  intros Hd Hkw. eexists. split; [by apply zadd_call_keyword_pairs|].
  intros r'. subst r'.
  destruct (zadd_pairs_dict_at name pairs d r Hd) as (r' & -> & Hd' & Hother).
  cbn [fst snd]. split; [done|]. split; [|split; [|split]].
  - intros member a Hm. rewrite (zscore_dict_at name member _ _ Hd').
    by rewrite (lookup_union_Some_l _ _ _ a).
  - intros member Hm. rewrite (zscore_dict_at name member _ _ Hd').
    rewrite (zscore_dict_at name member _ _ Hd). by rewrite lookup_union_r.
  - rewrite (zcard_dict_at name _ _ Hd'). by rewrite <- dom_union_L, size_dom.
  - done.
Qed.

Lemma zadd_then_zscore_witness :
  let r : store := {[ "z" := VDict {[ "a" := Num 1 ]} ]} in
  let pairs : gmap string atom := {[ "a" := Num 5; "b" := Num 2 ]} in
  ∃ m, MockRedis.zadd_call "z" pairs = Some m ∧
  let r' := (m r).2 in
  (m r).1 = Ok ()
  ∧ (∀ member a, pairs !! member = Some a →
       (MockRedis.zscore "z" member r').1 = Ok a)
  ∧ (∀ member, pairs !! member = None →
       (MockRedis.zscore "z" member r').1 = (MockRedis.zscore "z" member r).1)
  ∧ (MockRedis.zcard "z" r').1
    = Ok (Z.of_nat (size (dom pairs ∪ dom ({[ "a" := Num 1 ]} : gmap string atom))))
  ∧ (∀ k, k ≠ "z" → r' !! k = r !! k).
Proof.
  intros r pairs.
  apply (zadd_then_zscore "z" pairs {[ "a" := Num 1 ]} r).
  - left. reflexivity.
  - repeat split; reflexivity.
Defined.

(** The deprecated arguments of [zadd]: with only one of [value] and
    [score] the call raises [RedisError] and writes nothing, even when
    keyword pairs are given; with both it does what a call with the pair
    added to the keyword pairs does, a keyword pair for the same member
    taking precedence. *)
Theorem zadd_deprecated_arguments (name value : string) (score : atom)
    (pairs : gmap string atom) (r : store) :
  MockRedis.zadd name (Some value) None pairs r = (Raise RedisError, r)
  ∧ MockRedis.zadd name None (Some score) pairs r = (Raise RedisError, r)
  ∧ (∀ d, dict_at name r d →
       let r' := (MockRedis.zadd name (Some value) (Some score) pairs r).2 in
       (MockRedis.zadd name (Some value) (Some score) pairs r).1 = Ok ()
       ∧ (MockRedis.zscore name value r').1
         = Ok (default score (pairs !! value))
       ∧ ∀ member, (MockRedis.zscore name member r').1
           = (MockRedis.zscore name member
                (MockRedis.zadd name None None (pairs ∪ {[value := score]}) r).2).1).
Proof.
  split; [done|]. split; [done|]. intros d Hd r'. subst r'.
  destruct (zadd_legacy_dict_at name value score pairs d r Hd)
    as (r' & -> & Hd' & _).
  destruct (zadd_pairs_dict_at name (pairs ∪ {[value := score]}) d r Hd)
    as (r'' & -> & Hd'' & _).
  cbn [fst snd]. split; [done|]. split.
  - rewrite (zscore_dict_at name value _ _ Hd').
    rewrite <- (assoc_L (∪)), lookup_union.
    destruct (pairs !! value) as [a|] eqn:Hp; cbn.
    + by rewrite union_Some_l.
    + rewrite (left_id_L None _). by rewrite lookup_union, lookup_singleton_eq, union_Some_l.
  - intros member. rewrite (zscore_dict_at name member _ _ Hd').
    by rewrite (zscore_dict_at name member _ _ Hd'').
Qed.

Lemma zadd_deprecated_arguments_witness :
  let r' := (MockRedis.zadd "z" (Some "a") (Some (Num 1)) {[ "a" := Num 7 ]} ∅).2 in
  (MockRedis.zadd "z" (Some "a") (Some (Num 1)) {[ "a" := Num 7 ]} ∅).1 = Ok ()
  ∧ (MockRedis.zscore "z" "a" r').1
    = Ok (default (Num 1) (({[ "a" := Num 7 ]} : gmap string atom) !! "a"))
  ∧ ∀ member, (MockRedis.zscore "z" member r').1
      = (MockRedis.zscore "z" member
           (MockRedis.zadd "z" None None ({[ "a" := Num 7 ]} ∪ {[ "a" := Num 1 ]}) ∅).2).1.
Proof.
  destruct (zadd_deprecated_arguments "z" "a" (Num 1) {[ "a" := Num 7 ]} ∅)
    as (_ & _ & Hboth).
  apply (Hboth ∅). right. split; reflexivity.
Defined.

(** ** Sorted sets: ties and counts *)

Lemma atom_ltb_irrefl a : Py.atom_ltb a a = false.
Proof.
  destruct a as [s|z]; cbn.
  - unfold String.ltb. pose proof (String.compare_antisym s s) as Hc.
    by destruct (String.compare s s).
  - apply Z.ltb_irrefl.
Qed.

(** Where [insert_desc] puts an item: after the items of greater key that
    lead the list, before everything else. *)
Lemma insert_desc_split x l :
  ∃ l1 l2, l = l1 ++ l2 ∧ Py.insert_desc x l = l1 ++ x :: l2
           ∧ Forall (λ y, Py.atom_ltb x.2 y.2 = true) l1.
Proof.
  induction l as [|y l (l1 & l2 & Hl & Hins & Hgt)]; cbn.
  - by exists [], [].
  - destruct (Py.atom_ltb x.2 y.2) eqn:Hxy.
    + exists (y :: l1), l2. rewrite Hl at 1. rewrite Hins.
      split; [done|]. split; [done|]. by constructor.
    + by exists [], (y :: l).
Qed.

(** [sorted] is stable: of two items with the same key, the one that
    comes first in the input comes first in the output. *)
Lemma sorted_desc_stable l a b :
  a.2 = b.2 → [a; b] `sublist_of` l → [a; b] `sublist_of` Py.sorted_desc l.
Proof.
  intros Hab. induction l as [|z l IH]; intros Hsub; [by inv Hsub|].
  cbn. fold (Py.sorted_desc l).
  destruct (insert_desc_split z (Py.sorted_desc l)) as (l1 & l2 & Hl & -> & Hgt).
  apply sublist_cons_r in Hsub as [Hsub|(l' & [= <- <-] & Hb)].
  - transitivity (l1 ++ l2); [rewrite <- Hl; by apply IH|].
    apply sublist_app; [done|]. by apply sublist_cons.
  - apply singleton_sublist_l in Hb.
    rewrite <- sorted_desc_perm, Hl in Hb.
    apply elem_of_app in Hb as [Hb|Hb].
    + rewrite Forall_forall in Hgt. specialize (Hgt b Hb).
      rewrite <- Hab, atom_ltb_irrefl in Hgt. discriminate.
    + apply sublist_inserts_l, sublist_skip. by apply singleton_sublist_l.
Qed.

(** On a sorted set whose scores may repeat, [zrevrange] from 0 with a
    count of at least the number of members returns every member once, no
    member before one of higher score, and members of equal score in the
    order in which the dict yields them. *)
Theorem zrevrange_with_ties (name : string) (pairs : gmap string Z) (N : Z)
    (r : store) :
  r !! name = Some (VDict (Num <$> pairs)) →
  (Z.of_nat (size pairs) ≤ N)%Z →
  ∃ members,
    MockRedis.zrevrange name 0 N false r = (Ok members, r)
    ∧ NoDup members
    ∧ (∀ a, a ∈ members ↔ is_Some (pairs !! a))
    ∧ (∀ i j a b sa sb, i < j →
         members !! i = Some a → members !! j = Some b →
         pairs !! a = Some sa → pairs !! b = Some sb → (sb ≤ sa)%Z)
    ∧ (∀ a b s,
         [(a, Num s); (b, Num s)] `sublist_of` map_to_list (Num <$> pairs) →
         [a; b] `sublist_of` members).
Proof.
  intros Hk HN.
  destruct (sorted_members pairs) as (Hnd & Hmem & Hlen & Hord).
  set (sorted := Py.sorted_desc (map_to_list (Num <$> pairs))) in *.
  exists sorted.*1.
  rewrite (zrevrange_dict name 0 N (Num <$> pairs)) by done. fold sorted.
  rewrite slice_all by (rewrite length_fmap in Hlen; lia).
  split; [done|]. split; [done|]. split; [exact Hmem|]. split; [exact Hord|].
  intros a b s Hsub.
  apply (sorted_desc_stable _ (a, Num s) (b, Num s) eq_refl) in Hsub.
  fold sorted in Hsub. by apply (fmap_sublist fst) in Hsub.
Qed.

Lemma zrevrange_with_ties_witness :
  ∃ members,
    MockRedis.zrevrange "z" 0 2 false
      {[ "z" := VDict (Num <$> ({[ "a" := 1%Z; "b" := 1%Z ]} : gmap string Z)) ]}
    = (Ok members,
       {[ "z" := VDict (Num <$> ({[ "a" := 1%Z; "b" := 1%Z ]} : gmap string Z)) ]})
    ∧ NoDup members
    ∧ (∀ a, a ∈ members
            ↔ is_Some (({[ "a" := 1%Z; "b" := 1%Z ]} : gmap string Z) !! a))
    ∧ (∀ i j a b sa sb, i < j →
         members !! i = Some a → members !! j = Some b →
         ({[ "a" := 1%Z; "b" := 1%Z ]} : gmap string Z) !! a = Some sa →
         ({[ "a" := 1%Z; "b" := 1%Z ]} : gmap string Z) !! b = Some sb →
         (sb ≤ sa)%Z)
    ∧ (∀ a b s,
         [(a, Num s); (b, Num s)] `sublist_of`
           map_to_list (Num <$> ({[ "a" := 1%Z; "b" := 1%Z ]} : gmap string Z)) →
         [a; b] `sublist_of` members).
Proof.
  apply (zrevrange_with_ties "z" {[ "a" := 1%Z; "b" := 1%Z ]} 2).
  - reflexivity.
  - vm_compute. discriminate.
Defined.

(** The third argument of [zrevrange] is a count added to [start] to get
    the end of a Python slice: a count of [0] gives the empty list, and
    with [start = 0] a negative count [-j] does not mean the end of the
    set but leaves out the [j] members of lowest rank. *)
Theorem zrevrange_count_is_slice_end (name : string) (d : gmap string atom)
    (r : store) :
  r !! name = Some (VDict d) →
  ∃ members,
    MockRedis.zrevrange name 0 (Z.of_nat (size d)) false r = (Ok members, r)
    ∧ length members = size d
    ∧ (∀ start : nat,
         MockRedis.zrevrange name (Z.of_nat start) 0 false r = (Ok [], r))
    ∧ (∀ j : nat, 0 < j →
         MockRedis.zrevrange name 0 (- Z.of_nat j) false r
         = (Ok (take (length members - j) members), r)).
Proof.
  intros Hk. set (sorted := Py.sorted_desc (map_to_list d)).
  assert (Hlen : length sorted = size d).
  { unfold sorted. by rewrite sorted_desc_perm, length_map_to_list. }
  exists sorted.*1. split_and!.
  - rewrite (zrevrange_dict name _ _ d) by done. fold sorted.
    by rewrite slice_all by lia.
  - by rewrite length_fmap.
  - intros start. rewrite (zrevrange_dict name _ _ d) by done. fold sorted.
    change 0%Z with (Z.of_nat 0). by rewrite slice_count, take_0.
  - intros j Hj. rewrite (zrevrange_dict name _ _ d) by done. fold sorted.
    change 0%Z with (Z.of_nat 0). rewrite Z.add_0_l.
    rewrite slice_from_end by done.
    by rewrite drop_0, Nat.sub_0_r, fmap_take, length_fmap.
Qed.

Lemma zrevrange_count_is_slice_end_witness :
  ∃ members,
    MockRedis.zrevrange "z" 0
      (Z.of_nat (size ({[ "a" := Num 1; "b" := Num 2 ]} : gmap string atom))) false
      {[ "z" := VDict {[ "a" := Num 1; "b" := Num 2 ]} ]}
    = (Ok members, {[ "z" := VDict {[ "a" := Num 1; "b" := Num 2 ]} ]})
    ∧ length members = size ({[ "a" := Num 1; "b" := Num 2 ]} : gmap string atom)
    ∧ (∀ start : nat,
         MockRedis.zrevrange "z" (Z.of_nat start) 0 false
           {[ "z" := VDict {[ "a" := Num 1; "b" := Num 2 ]} ]}
         = (Ok [], {[ "z" := VDict {[ "a" := Num 1; "b" := Num 2 ]} ]}))
    ∧ (∀ j : nat, 0 < j →
         MockRedis.zrevrange "z" 0 (- Z.of_nat j) false
           {[ "z" := VDict {[ "a" := Num 1; "b" := Num 2 ]} ]}
         = (Ok (take (length members - j) members),
            {[ "z" := VDict {[ "a" := Num 1; "b" := Num 2 ]} ]})).
Proof.
  apply (zrevrange_count_is_slice_end "z" {[ "a" := Num 1; "b" := Num 2 ]}).
  reflexivity.
Defined.

(** ** The key scan *)

Lemma list_ascii_of_string_app (a b : string) :
  list_ascii_of_string (a ++ b)%string
  = list_ascii_of_string a ++ list_ascii_of_string b.
Proof. induction a as [|c a IH]; simpl; [done|]. by rewrite IH. Qed.

Lemma list_ascii_of_string_eq (a b : string) :
  list_ascii_of_string a = list_ascii_of_string b → a = b.
Proof.
  intros H. rewrite <- (string_of_list_ascii_of_string a), H.
  apply string_of_list_ascii_of_string.
Qed.

(** A pattern without special characters is read character by character. *)
Lemma compile_literal (p : string) (items : list Re.item) (q : string) :
  literal_text p → Re.compile q = Some items →
  Re.compile (p ++ q)%string
  = Some ((Re.Char <$> list_ascii_of_string p) ++ items).
Proof.
  intros Hp Hq. induction p as [|c p IH]; simpl; [done|].
  apply Forall_cons in Hp as [Hc Hp]. rewrite (IH Hp).
  destruct (Ascii.eqb c "*") eqn:Hstar.
  - apply Ascii.eqb_eq in Hstar as ->. discriminate.
  - by rewrite Hc.
Qed.

(** Literal characters match themselves, one for one. *)
Lemma match_items_chars (lp : list ascii) items : ∀ s,
  Re.match_items ((Re.Char <$> lp) ++ items) s = true
  ↔ ∃ s', s = lp ++ s' ∧ Re.match_items items s' = true.
Proof.
  induction lp as [|c lp IH]; intros s; cbn [fmap list_fmap app].
  - split; [by exists s|]. by intros (s' & -> & Hs').
  - cbn [Re.match_items]. destruct s as [|c' s].
    + split; [done|]. by intros (s' & [=] & _).
    + rewrite andb_true_iff, Ascii.eqb_eq, IH. split.
      * intros (-> & s' & -> & Hs'). by exists s'.
      * intros (s' & [= -> ->] & Hs'). split; [done|]. by exists s'.
Qed.

Lemma at_end_spec s : Re.at_end s = true ↔ s = [] ∨ s = [Re.newline].
Proof.
  destruct s as [|c [|c' s]]; cbn.
  - split; [by left|done].
  - rewrite Ascii.eqb_eq. split; [intros ->; by right|by intros [[=]|[= ->]]].
  - split; [done|by intros [[=]|[=]]].
Qed.

(** [.*] before the end takes a run of characters without a line feed,
    after which at most one line feed may be left. *)
Lemma match_items_any_star s :
  Re.match_items [Re.AnyStar] s = true
  ↔ ∃ w, (Re.newline ∉ w) ∧ (s = w ∨ s = w ++ [Re.newline]).
Proof.
  induction s as [|c s IH].
  - cbn. split; [|done]. intros _. exists []. split; [by intros ?%elem_of_nil|by left].
  - change (Re.match_items [Re.AnyStar] (c :: s))
      with (Re.at_end (c :: s)
            || negb (Ascii.eqb c Re.newline) && Re.match_items [Re.AnyStar] s).
    rewrite orb_true_iff, andb_true_iff, negb_true_iff, Ascii.eqb_neq, IH, at_end_spec.
    split.
    + intros [[[=]|Heq]|(Hc & w & Hw & Hs)].
      * injection Heq as -> ->.
        exists []. split; [by intros ?%elem_of_nil|by right].
      * exists (c :: w). split.
        { intros [Heq|?]%elem_of_cons; [congruence|done]. }
        destruct Hs as [->| ->]; [by left|by right].
    + intros (w & Hw & [Hs|Hs]).
      * destruct w as [|c' w]; [done|]. injection Hs as -> ->.
        right. split; [intros ->; apply Hw; by left|].
        exists w. split; [|by left]. intros ?. apply Hw. by right.
      * destruct w as [|c' w]; cbn [app] in Hs.
        { injection Hs as -> ->. left. by right. }
        injection Hs as -> ->.
        right. split; [intros ->; apply Hw; by left|].
        exists w. split; [|by right]. intros ?. apply Hw. by right.
Qed.

(** What [keys] returns, given the expression its pattern stands for. *)
Lemma keys_compiled pattern regex :
  Re.compile pattern = Some regex →
  ∃ m, MockRedis.keys pattern = Some m
    ∧ ∀ r : store, ∃ ks, m r = (Ok ks, r) ∧ NoDup ks
        ∧ ∀ k, k ∈ ks ↔ is_Some (r !! k) ∧ Re.re_match regex k = true.
Proof.
  intros Hc. unfold MockRedis.keys. rewrite Hc. eexists. split; [done|].
  intros r. eexists. split; [done|]. split.
  - apply NoDup_filter, NoDup_fst_map_to_list.
  - intros k. rewrite list_elem_of_filter, list_elem_of_fmap. split.
    + intros (Hm & [k' v] & -> & Hin%elem_of_map_to_list). split; [by exists v|done].
    + intros ([v Hv] & Hm). split; [done|]. exists (k, v).
      split; [done|]. by apply elem_of_map_to_list.
Qed.

(** [keys] with a pattern made of a literal prefix and a final [*] leaves
    the store as it is and returns keys of the store, each once, all
    starting with the prefix.  A key of the store that starts with the
    prefix is returned when the rest of it has no line feed, or just one
    at its very end; with a line feed elsewhere it is not returned. *)
Theorem keys_prefix_pattern (p : string) :
  literal_text p →
  ∃ m, MockRedis.keys (p ++ "*")%string = Some m
    ∧ ∀ r : store, ∃ ks, m r = (Ok ks, r) ∧ NoDup ks
        ∧ (∀ k, k ∈ ks ↔
             is_Some (r !! k)
             ∧ ∃ w, (Re.newline ∉ w)
                 ∧ (list_ascii_of_string k = list_ascii_of_string p ++ w
                    ∨ list_ascii_of_string k
                      = list_ascii_of_string p ++ w ++ [Re.newline]))
        ∧ (∀ k, k ∈ ks → is_Some (r !! k) ∧ ∃ rest, k = (p ++ rest)%string)
        ∧ (∀ rest, is_Some (r !! (p ++ rest)%string) →
             Re.newline ∉ list_ascii_of_string rest →
             (p ++ rest)%string ∈ ks).
Proof.
  intros Hp.
  destruct (keys_compiled (p ++ "*")%string
              ((Re.Char <$> list_ascii_of_string p) ++ [Re.AnyStar]))
    as (m & Hm & Hks); [by apply compile_literal|].
  exists m. split; [done|]. intros r.
  destruct (Hks r) as (ks & Hrun & Hnd & Hin).
  assert (Hchar : ∀ k, k ∈ ks ↔
             is_Some (r !! k)
             ∧ ∃ w, (Re.newline ∉ w)
                 ∧ (list_ascii_of_string k = list_ascii_of_string p ++ w
                    ∨ list_ascii_of_string k
                      = list_ascii_of_string p ++ w ++ [Re.newline])).
  { intros k. rewrite Hin. unfold Re.re_match. rewrite match_items_chars.
    split.
    - intros (Hk & s' & Hs & (w & Hw & Hs')%match_items_any_star).
      split; [done|]. exists w. split; [done|].
      rewrite Hs. destruct Hs' as [->| ->]; [by left|by right].
    - intros (Hk & w & Hw & Hs). split; [done|].
      destruct Hs as [Hs|Hs].
      + exists w. split; [done|]. apply match_items_any_star. exists w. auto.
      + exists (w ++ [Re.newline]). split; [done|].
        apply match_items_any_star. exists w. auto. }
  exists ks. split; [done|]. split; [done|]. split; [exact Hchar|]. split.
  - intros k (Hk & w & _ & Hs)%Hchar. split; [done|].
    destruct Hs as [Hs|Hs].
    + exists (string_of_list_ascii w). apply list_ascii_of_string_eq.
      by rewrite list_ascii_of_string_app, list_ascii_of_string_of_list_ascii.
    + exists (string_of_list_ascii (w ++ [Re.newline])).
      apply list_ascii_of_string_eq.
      by rewrite list_ascii_of_string_app, list_ascii_of_string_of_list_ascii.
  - intros rest Hk Hrest. apply Hchar. split; [done|].
    exists (list_ascii_of_string rest). split; [done|]. left.
    apply list_ascii_of_string_app.
Qed.

Lemma keys_prefix_pattern_witness :
  ∃ m, MockRedis.keys ("a" ++ "*")%string = Some m
    ∧ ∀ r : store, ∃ ks, m r = (Ok ks, r) ∧ NoDup ks
        ∧ (∀ k, k ∈ ks ↔
             is_Some (r !! k)
             ∧ ∃ w, (Re.newline ∉ w)
                 ∧ (list_ascii_of_string k = list_ascii_of_string "a" ++ w
                    ∨ list_ascii_of_string k
                      = list_ascii_of_string "a" ++ w ++ [Re.newline]))
        ∧ (∀ k, k ∈ ks → is_Some (r !! k) ∧ ∃ rest, k = ("a" ++ rest)%string)
        ∧ (∀ rest, is_Some (r !! ("a" ++ rest)%string) →
             Re.newline ∉ list_ascii_of_string rest →
             ("a" ++ rest)%string ∈ ks).
Proof.
  apply (keys_prefix_pattern "a"). repeat constructor.
Defined.

(** [keys] with a pattern without any special character returns the key
    equal to the pattern, if the store holds it, and also the key made of
    the pattern followed by one line feed, if the store holds that: [$]
    matches before a final line feed. *)
Theorem keys_literal_pattern (p : string) :
  literal_text p →
  ∃ m, MockRedis.keys p = Some m
    ∧ ∀ r : store, ∃ ks, m r = (Ok ks, r) ∧ NoDup ks
        ∧ ∀ k, k ∈ ks ↔
            is_Some (r !! k)
            ∧ (k = p ∨ k = (p ++ String Re.newline EmptyString)%string).
Proof.
  intros Hp.
  destruct (keys_compiled p ((Re.Char <$> list_ascii_of_string p) ++ []))
    as (m & Hm & Hks).
  { rewrite <- (compile_literal p [] EmptyString) by done.
    f_equal. apply list_ascii_of_string_eq.
    by rewrite list_ascii_of_string_app, app_nil_r. }
  exists m. split; [done|]. intros r.
  destruct (Hks r) as (ks & Hrun & Hnd & Hin).
  exists ks. split; [done|]. split; [done|]. intros k. rewrite Hin.
  unfold Re.re_match. rewrite match_items_chars. split.
  - intros (Hk & s' & Hs & [->| ->]%at_end_spec); (split; [done|]).
    + left. apply list_ascii_of_string_eq. by rewrite Hs, app_nil_r.
    + right. apply list_ascii_of_string_eq.
      by rewrite Hs, list_ascii_of_string_app.
  - intros (Hk & [->| ->]); (split; [done|]).
    + exists []. by rewrite app_nil_r.
    + exists [Re.newline]. by rewrite list_ascii_of_string_app.
Qed.

Lemma keys_literal_pattern_witness :
  ∃ m, MockRedis.keys "abc" = Some m
    ∧ ∀ r : store, ∃ ks, m r = (Ok ks, r) ∧ NoDup ks
        ∧ ∀ k, k ∈ ks ↔
            is_Some (r !! k)
            ∧ (k = "abc" ∨ k = ("abc" ++ String Re.newline EmptyString)%string).
Proof.
  apply (keys_literal_pattern "abc"). repeat constructor.
Defined.
